(** * Modular: the [Module] base class (src/module.ts)

    A shallow embedding of the class [Module] and of the part of the
    JavaScript and DOM run time its methods touch.

    - Objects live in a store and are named by their address ([loc]); the
      array held by the field [modules] is an object of its own, so that
      several instances can hold the same array and an instance can be an
      entry of its own array.
    - A DOM node is named by the tree it is in and by the child indexes from
      the node up to the root of that tree; [parentNode] drops the first
      index.  The node [document] is the root of the tree [TheDocument], the
      root of a tree [Fragment] is a document fragment or a shadow root;
      every other node is an HTML element of an HTML document.
    - Methods of module instances are foreign code.  Their effect is a
      parameter of the development ([applyFunction]): a function of the
      whole state that returns or throws.  Every invocation made by the base
      class is recorded in a trace.
    - The selector engine of the DOM ([querySelectorAll] and the call
      [node.matches(selectors)]) and the helper [generateCustomQuery] are
      parameters as well; the call may throw (a selector the engine cannot
      parse, a node that has no method [matches]).  [element_matches] is
      the engine of the standard on the attribute selectors [parent] builds.
    - [getAttribute] and [setAttribute] are those of an HTML element: the
      name is lower-cased, and [setAttribute] throws on a name that is no
      XML name.

    Left out: property getters, and the document of a frame.  The targets
    of [getData] and [setData] and the context of [q] are elements, as
    their types say. *)

From Stdlib Require Import ZArith Ascii String List Bool Arith Lia.
From stdpp Require Import base option strings gmap.
Import ListNotations.

Local Open Scope string_scope.

(** ** JavaScript values *)

(** Address of an object in the store. *)
Definition loc := nat.

(** Identity of a function object. *)
Definition fn := nat.

(** The tree a DOM node belongs to: the document, or a detached tree. *)
Inductive root :=
  | TheDocument
  | Detached (t : nat)
  | Fragment (t : nat).

(** A node: its tree and the child indexes from the node up to the root. *)
Definition node : Type := root * list nat.

Inductive value :=
  | VUndefined
  | VNull
  | VBoolean (b : bool)
  | VNumber (z : Z)
  | VString (s : string)
  | VElement (n : node)
  | VObject (l : loc)
  | VFunction (f : fn).

(** ToBoolean, as the operators [&&], [||], [!] and [if] apply it. *)
Definition truthy (v : value) : bool :=
  match v with
  | VUndefined | VNull => false
  | VBoolean b => b
  | VNumber z => negb (z =? 0)%Z
  | VString s => negb (s =? "")
  | VElement _ | VObject _ | VFunction _ => true
  end.

(** Modelled from the spec: the helper [isFunction] of
    [utils/is_function] is missing; the spec says it is true exactly when
    the value's runtime kind is callable, and false for every other kind,
    absent values included. *)
Definition isFunction (v : value) : bool :=
  match v with
  | VFunction _ => true
  | _ => false
  end.

(** Modelled from the spec: the helper [isObject] of [utils/is_object] is
    missing; the spec says it is true exactly when the value is a non-null
    structured value, and false for primitives, callables and absent or null
    values. *)
Definition isObject (v : value) : bool :=
  match v with
  | VElement _ | VObject _ => true
  | _ => false
  end.

(** Modelled from the spec: the classes [ModularModuleNotFoundException] and
    [ModularModuleIdNotFoundException] of [exceptions/] are missing; the spec
    says each carries exactly one field, the name, respectively the ID, that
    had no matching instance.  [TypeError] is the one of the language,
    [DOMException] the one of the DOM with its name, and [Thrown] any other
    thrown value. *)
Inductive exn :=
  | ModularModuleNotFoundException (moduleName : string)
  | ModularModuleIdNotFoundException (id : Z)
  | TypeError
  | DOMException (name : string)
  | Thrown (v : value).

Inductive completion (A : Type) :=
  | Return (a : A)
  | Throw (e : exn).
Arguments Return {A} a.
Arguments Throw {A} e.

(** ** The DOM *)

#[global] Instance root_eq_dec : EqDecision root.
Proof. solve_decision. Defined.

Definition document : node := (TheDocument, []).

Definition parentNode (n : node) : option node :=
  match snd n with
  | [] => None
  | _ :: up => Some (fst n, up)
  end.

(** The attribute list of an element, in document order of the attributes. *)
Definition attribute_list := list (string * string).

(** Characters, by their code. *)
Definition char_between (lo hi : nat) (c : ascii) : bool :=
  (lo <=? nat_of_ascii c)%nat && (nat_of_ascii c <=? hi)%nat.

Definition char_upper (c : ascii) : bool := char_between 65 90 c.

Definition char_letter (c : ascii) : bool :=
  char_between 65 90 c || char_between 97 122 c.

Definition char_digit (c : ascii) : bool := char_between 48 57 c.

Fixpoint string_forall (f : ascii -> bool) (s : string) : bool :=
  match s with
  | EmptyString => true
  | String c rest => f c && string_forall f rest
  end.

(** ASCII lower-casing, as the DOM applies it to the name of an attribute of
    an HTML element. *)
Definition char_lowercase (c : ascii) : ascii :=
  if char_upper c then ascii_of_nat (nat_of_ascii c + 32) else c.

Fixpoint ascii_lowercase (s : string) : string :=
  match s with
  | EmptyString => EmptyString
  | String c rest => String (char_lowercase c) (ascii_lowercase rest)
  end.

(** The ASCII characters of the production Name of XML. *)
Definition ascii_name_char (c : ascii) : bool :=
  char_letter c || char_digit c || Ascii.eqb c "-" || Ascii.eqb c "."
  || Ascii.eqb c "_" || Ascii.eqb c ":".

(** The names [setAttribute] accepts: those of the production Name of XML.
    Of the characters outside ASCII, most are name characters; all are taken
    as such here, and the properties below speak of ASCII names only.  (A
    later DOM standard accepts more names; it rejects the names with white
    space, and accepts the names of XML.) *)
Definition name_start_char (c : ascii) : bool :=
  char_letter c || Ascii.eqb c ":" || Ascii.eqb c "_"
  || (128 <=? nat_of_ascii c)%nat.

Definition name_char (c : ascii) : bool :=
  ascii_name_char c || (128 <=? nat_of_ascii c)%nat.

(** The keys of [getData] and [setData] made of ASCII name characters: with
    them [data-<key>] is a name [setAttribute] accepts. *)
Definition plain_data_key (key : string) : bool :=
  string_forall ascii_name_char key.

Definition valid_attribute_name (qualifiedName : string) : bool :=
  match qualifiedName with
  | EmptyString => false
  | String c rest => name_start_char c && string_forall name_char rest
  end.

(** The value of the first attribute of the list whose name is [k]. *)
Fixpoint first_attribute (attrs : attribute_list) (k : string)
  : option string :=
  match attrs with
  | [] => None
  | (k0, v) :: rest =>
      if k0 =? k then Some v else first_attribute rest k
  end.

(** The list with the value of the first attribute whose name is [k] set to
    [value], or with a new attribute at its end when there is none. *)
Fixpoint set_first_attribute (attrs : attribute_list) (k value : string)
  : attribute_list :=
  match attrs with
  | [] => [(k, value)]
  | (k0, v) :: rest =>
      if k0 =? k then (k0, value) :: rest
      else (k0, v) :: set_first_attribute rest k value
  end.

(** [element.getAttribute(qualifiedName)] on an HTML element: the name is
    lower-cased; the value of the first attribute of that name, [null] when
    there is none. *)
Definition getAttribute (attrs : attribute_list) (qualifiedName : string)
  : option string :=
  first_attribute attrs (ascii_lowercase qualifiedName).

(** [element.setAttribute(qualifiedName, value)] on an HTML element: throws
    [InvalidCharacterError] when the name is not valid; otherwise the name is
    lower-cased, and the value of the first attribute of that name is set, or
    a new attribute is appended when there is none. *)
Definition setAttribute (attrs : attribute_list) (qualifiedName value : string)
  : completion attribute_list :=
  if valid_attribute_name qualifiedName then
    Return (set_first_attribute attrs (ascii_lowercase qualifiedName) value)
  else Throw (DOMException "InvalidCharacterError").

(** The attributes of every element. *)
Definition Dom := node -> attribute_list.

Definition dom_update (d : Dom) (el : node) (attrs : attribute_list) : Dom :=
  fun n => if decide (n = el) then attrs else d n.

(** The double quote of the template literal in [parent]. *)
Definition dquote : string := String "034"%char EmptyString.

(** The nodes that are elements: all but the document and the roots of the
    fragments. *)
Definition is_element (n : node) : bool :=
  match n with
  | (TheDocument, []) | (Fragment _, []) => false
  | _ => true
  end.

(** *** The selector engine on attribute selectors

    What [element.matches(selectors)] answers, by the Selectors standard,
    on the selectors of the form [[name="value"]], which are those the
    template of [parent] builds. *)

(** The longest prefix of the characters that satisfy [f], and the rest. *)
Fixpoint span (f : ascii -> bool) (s : string) : string * string :=
  match s with
  | EmptyString => (EmptyString, EmptyString)
  | String c rest =>
      if f c then (String c (fst (span f rest)), snd (span f rest))
      else (EmptyString, s)
  end.

(** The characters of an identifier (ASCII). *)
Definition ident_char (c : ascii) : bool :=
  char_letter c || char_digit c || Ascii.eqb c "-" || Ascii.eqb c "_".

(** The characters that stand for themselves in a double-quoted string: all
    but the quote, the backslash, the line ends and the null character. *)
Definition string_char (c : ascii) : bool :=
  negb (Ascii.eqb c "034" || Ascii.eqb c "092" || Ascii.eqb c "010"
        || Ascii.eqb c "012" || Ascii.eqb c "013" || Ascii.eqb c "000").

(** After the closing quote of the value only white space, a modifier ([i]
    or [s]) and the closing bracket may follow: a digit, a quote or a
    letter that starts no modifier is an error. *)
Definition error_after_string (c : ascii) : bool :=
  (char_letter c
   && negb (Ascii.eqb c "i" || Ascii.eqb c "I"
            || Ascii.eqb c "s" || Ascii.eqb c "S"))
  || char_digit c || Ascii.eqb c "034".

Inductive selector_class :=
  | AttributeEquals (name value : string)
  | Malformed
  | Unmodelled.

Definition classify_after_name (name rest : string) : selector_class :=
  match rest with
  | String e (String q rest2) =>
      if Ascii.eqb e "=" && Ascii.eqb q "034" then
        match snd (span string_char rest2) with
        | String q' rest4 =>
            if Ascii.eqb q' "034" then
              if rest4 =? "]" then
                AttributeEquals name (fst (span string_char rest2))
              else
                match rest4 with
                | String c _ =>
                    if error_after_string c then Malformed else Unmodelled
                | EmptyString => Unmodelled
                end
            else Unmodelled
        | EmptyString => Unmodelled
        end
      else Unmodelled
  | _ => Unmodelled
  end.

(** [[name="value"]] with an identifier that starts with a letter and a
    string without escapes; a selector that goes on after the string with
    what cannot follow it; any other selector is not modelled. *)
Definition classify (selectors : string) : selector_class :=
  match selectors with
  | String b (String c rest) =>
      if Ascii.eqb b "[" && char_letter c then
        classify_after_name (fst (span ident_char (String c rest)))
                            (snd (span ident_char (String c rest)))
      else Unmodelled
  | _ => Unmodelled
  end.

(** The identifiers and the strings the template of [parent] can take as
    they are. *)
Definition plain_key (key : string) : bool := string_forall ident_char key.

Definition plain_query (query : string) : bool :=
  string_forall string_char query.

(** The call [node.matches(selectors)].  A node that is no element has no
    such method: [TypeError].  On an element, the attribute selector with
    an equality holds when the element has the attribute (names of
    attributes compare without case on an HTML element) with that value; a
    malformed selector is a [SyntaxError]; [other] answers the selectors
    that are not modelled. *)
Definition element_matches (other : Dom -> node -> string -> completion bool)
    (d : Dom) (n : node) (selectors : string) : completion bool :=
  if is_element n then
    match classify selectors with
    | AttributeEquals name value =>
        Return (bool_decide (getAttribute (d n) name = Some value))
    | Malformed => Throw (DOMException "SyntaxError")
    | Unmodelled => other d n selectors
    end
  else Throw TypeError.

(** ** Module instances *)

(** The argument of the constructor. *)
Module ModuleOptions.
Record t := mk {
  ID : Z;
  name : string;
  element : option node;
  modules : loc
}.
End ModuleOptions.

(** An instance of [Module] or of a subclass: the four fields the
    constructor sets, and every other member the object answers to (its own
    and those of its prototype chain).  The entries of the array [modules]
    have the type [ModuleCompiled] of [types], which is missing; they are
    modelled as such instances, of which [call] and [callById] read [ID],
    [name] and the member asked for. *)
Record ModuleObject := {
  ID : Z;
  name : string;
  element : option node;
  modules : loc;
  members : gmap string value
}.

(** The constructor stores the four fields of the options. *)
Definition constructor (o : ModuleOptions.t) (methods : gmap string value)
  : ModuleObject :=
  {| ID := ModuleOptions.ID o;
     name := ModuleOptions.name o;
     element := ModuleOptions.element o;
     modules := ModuleOptions.modules o;
     members := methods |}.

(** [module[key]]: the fields shadow the other members. *)
Definition get (o : ModuleObject) (key : string) : value :=
  if key =? "ID" then VNumber (ID o)
  else if key =? "name" then VString (name o)
  else if key =? "element" then
    match element o with Some e => VElement e | None => VNull end
  else if key =? "modules" then VObject (modules o)
  else default VUndefined (members o !! key).

(** One invocation of a method by the base class: the instance the method
    was looked up on, under which name, the function found, and what it
    received as [this] and as arguments. *)
Record invocation := {
  inv_target : loc;
  inv_method : string;
  inv_fn : fn;
  inv_this : loc;
  inv_args : list value
}.

(** The result of [q]: [null], one element, or an array of elements. *)
Inductive q_result :=
  | QNull
  | QElement (e : node)
  | QElements (es : list node).

(** The public operations of the class, as a caller can request them. *)
Inductive operation :=
  | OpInit
  | OpDestroy
  | OpBind
  | OpCall (moduleName methodName : string) (args : list value)
  | OpCallById (id : Z) (methodName : string) (args : list value)
  | OpQ (selectors : option string) (context : option node)
  | OpParent (query : string) (target : node)
  | OpGetData (qualifiedName : string) (target : option node)
  | OpSetData (qualifiedName value : string) (target : option node).

Section ModuleClass.

(** State of the foreign code. *)
Context {W : Type}.

Record state := {
  objs : loc -> ModuleObject;
  arrays : loc -> list loc;
  dom : Dom;
  world : W
}.

(** [f.apply(thisArg, args)] for a function object [f]. *)
Variable applyFunction :
  fn -> loc -> list value -> state -> completion value * state.

(** [element.querySelectorAll(selectors)], in document order. *)
Variable querySelectorAll : Dom -> node -> string -> completion (list node).

(** [element.matches(selectors)]. *)
Variable matches : Dom -> node -> string -> completion bool.

(** The helper of [utils/generate_custom_query], missing from the sources:
    from the name of the module and the optional selectors to a selector. *)
Variable generateCustomQuery : string -> option string -> string.

(** *** State, exceptions and the trace of invocations *)

Definition M (A : Type) : Type :=
  state -> completion A * state * list invocation.

Definition ret {A} (a : A) : M A := fun s => (Return a, s, []).

Definition throw {A} (e : exn) : M A := fun s => (Throw e, s, []).

Definition bindM {A B} (m : M A) (k : A -> M B) : M B :=
  fun s =>
    match m s with
    | (Return a, s1, t1) =>
        match k a s1 with
        | (c, s2, t2) => (c, s2, (t1 ++ t2)%list)
        end
    | (Throw e, s1, t1) => (Throw e, s1, t1)
    end.

Definition read {A} (f : state -> A) : M A := fun s => (Return (f s), s, []).

Notation "x <- m ;; k" := (bindM m (fun x => k))
  (at level 100, m at next level, right associativity).

(** [array.forEach(callback)]: stops at the first callback that throws. *)
Fixpoint forEach {A} (callback : A -> M unit) (l : list A) : M unit :=
  match l with
  | [] => ret tt
  | x :: rest => _ <- callback x ;; forEach callback rest
  end.

(** The call of a function object found on [module] under [methodName]. *)
Definition invoke (module : loc) (methodName : string) (f : fn)
    (thisArg : loc) (args : list value) : M unit :=
  fun s =>
    let i := {| inv_target := module; inv_method := methodName;
                inv_fn := f; inv_this := thisArg; inv_args := args |} in
    match applyFunction f thisArg args s with
    | (Return _, s') => (Return tt, s', [i])
    | (Throw e, s') => (Throw e, s', [i])
    end.

(** *** The methods of [Module] *)

Definition init (this : loc) : M unit := ret tt.

Definition destroy (this : loc) : M unit := ret tt.

Definition bind (this : loc) : M unit := ret tt.

(** [#callMethod(module, methodName, ...args)].  [args] is the rest
    parameter: the list of the arguments after [methodName].  Both callers
    pass one, the array of the arguments for the method, and
    [moduleMethod.apply(this, ...args)] spreads the rest parameter again,
    so that [apply] receives that array as its second argument. *)
Definition callMethod (this module : loc) (methodName : string)
    (args : list (list value)) : M unit :=
  moduleMethod <- read (fun s => get (objs s module) methodName) ;;
  if truthy moduleMethod && isFunction moduleMethod then
    match moduleMethod with
    | VFunction f => invoke module methodName f this (hd [] args)
    | _ => throw TypeError (* [apply] of a value that is no function *)
    end
  else ret tt.

Definition call (this : loc) (moduleName methodName : string)
    (args : list value) : M unit :=
  moduleInstances <-
    read (fun s =>
      List.filter (fun module => name (objs s module) =? moduleName)
                  (arrays s (modules (objs s this)))) ;;
  (* [moduleInstances && ...]: an array is truthy *)
  if (0 <? length moduleInstances)%nat then
    forEach (fun moduleInstance =>
               callMethod this moduleInstance methodName [args])
            moduleInstances
  else throw (ModularModuleNotFoundException moduleName).

Definition callById (this : loc) (id : Z) (methodName : string)
    (args : list value) : M unit :=
  module <-
    read (fun s =>
      List.find (fun m => (ID (objs s m) =? id)%Z)
                (arrays s (modules (objs s this)))) ;;
  match module with (* [if (module)]: an instance is truthy *)
  | Some module => callMethod this module methodName [args]
  | None => throw (ModularModuleIdNotFoundException id)
  end.

(** The optional parameter [context] as a value. *)
Definition value_of_context (context : option node) : value :=
  match context with
  | Some c => VElement c
  | None => VUndefined
  end.

Definition q (this : loc) (selectors : option string)
    (context : option node) : M q_result :=
  fun s =>
    let element :=
      if isObject (value_of_context context) then context
      else element (objs s this) in
    match element with
    | None => (Return QNull, s, [])
    | Some element =>
        match querySelectorAll (dom s) element
                (generateCustomQuery (name (objs s this)) selectors) with
        | Throw e => (Throw e, s, [])
        | Return elements =>
            (* [elements && elements.length]: an array is truthy *)
            if (0 <? length elements)%nat then
              if (length elements =? 1)%nat then
                (* [elements[0]]; the array has one element *)
                (Return (QElement (hd element elements)), s, [])
              else (Return (QElements elements), s, [])
            else (Return QNull, s, [])
        end
    end.

(** The loop of [parent], entered with the variable [parent] holding the
    node [(r, path)]. *)
Fixpoint parent_climb (d : Dom) (data : string) (r : root)
    (path : list nat) : completion (option node) :=
  if decide ((r, path) = document) then Return None
  else
    match matches d (r, path) data with
    | Throw e => Throw e
    | Return true => Return (Some (r, path))
    | Return false =>
        match path with
        | [] => Return None
        | _ :: up => parent_climb d data r up
        end
    end.

(** The loop of [parent], from the value of the variable [parent]. *)
Definition parent_loop (d : Dom) (data : string) (parent : option node)
  : completion (option node) :=
  match parent with
  | None => Return None
  | Some (r, path) => parent_climb d data r path
  end.

Definition parent (this : loc) (query : string) (target : node)
  : M (option node) :=
  fun s =>
    let data :=
      "[data-" +:+ name (objs s this) +:+ "=" +:+ dquote +:+ query
        +:+ dquote +:+ "]" in
    (parent_loop (dom s) data (parentNode target), s, []).

Definition getData (this : loc) (qualifiedName : string)
    (target : option node) : M (option string) :=
  fun s =>
    (* [target || this.element]: an element is truthy *)
    let element :=
      match target with
      | Some t => Some t
      | None => element (objs s this)
      end in
    match element with
    | Some element =>
        (Return (getAttribute (dom s element) ("data-" +:+ qualifiedName)),
         s, [])
    | None => (Return None, s, [])
    end.

Definition setData (this : loc) (qualifiedName value : string)
    (target : option node) : M unit :=
  fun s =>
    (* [target || this.element] *)
    let element :=
      match target with
      | Some t => Some t
      | None => element (objs s this)
      end in
    match element with
    | Some element =>
        match setAttribute (dom s element) ("data-" +:+ qualifiedName)
                value with
        | Return attrs =>
            (Return tt,
             {| objs := objs s; arrays := arrays s;
                dom := dom_update (dom s) element attrs;
                world := world s |},
             [])
        | Throw e => (Throw e, s, [])
        end
    | None => (Return tt, s, [])
    end.


(** *** Sequences of operations on one instance *)

Definition outcome {A} (r : completion A * state * list invocation)
  : completion A := fst (fst r).

Definition final {A} (r : completion A * state * list invocation)
  : state := snd (fst r).

Definition trace {A} (r : completion A * state * list invocation)
  : list invocation := snd r.

(** The state after one operation requested on the instance [this]; what
    the operation returns or throws is left to its caller. *)
Definition perform (this : loc) (op : operation) (s : state) : state :=
  match op with
  | OpInit => final (init this s)
  | OpDestroy => final (destroy this s)
  | OpBind => final (bind this s)
  | OpCall moduleName methodName args =>
      final (call this moduleName methodName args s)
  | OpCallById id methodName args =>
      final (callById this id methodName args s)
  | OpQ selectors context => final (q this selectors context s)
  | OpParent query target => final (parent this query target s)
  | OpGetData qualifiedName target =>
      final (getData this qualifiedName target s)
  | OpSetData qualifiedName value target =>
      final (setData this qualifiedName value target s)
  end.

Definition perform_all (this : loc) (ops : list operation) (s : state)
  : state :=
  fold_left (fun s op => perform this op s) ops s.

(** The four fields the constructor sets. *)
Definition fields (o : ModuleObject) : Z * string * option node * loc :=
  (ID o, name o, element o, modules o).

(** *** Assumptions on the foreign code *)

(** Every method returns. *)
Definition methods_return : Prop :=
  forall f thisArg args s,
    exists v, fst (applyFunction f thisArg args s) = Return v.

(** No method writes to a module instance. *)
Definition methods_keep_instances : Prop :=
  forall f thisArg args s l,
    objs (snd (applyFunction f thisArg args s)) l = objs s l.

(** No method writes to one of the four fields of the instance [this]. *)
Definition methods_keep_fields (this : loc) : Prop :=
  forall f thisArg args s,
    fields (objs (snd (applyFunction f thisArg args s)) this)
    = fields (objs s this).

(** *** The notions the properties are stated with *)

(** The invocation the specification expects when [caller] reaches the
    function [f] found under [methodName] on [target]. *)
Definition invoked (caller target : loc) (methodName : string) (f : fn)
    (args : list value) : invocation :=
  {| inv_target := target; inv_method := methodName; inv_fn := f;
     inv_this := caller; inv_args := args |}.


(** What the invocation helper does on one target: one invocation when the
    member is callable, nothing otherwise. *)
Definition helper_trace (s : state) (caller : loc) (methodName : string)
    (args : list value) (target : loc) : list invocation :=
  match get (objs s target) methodName with
  | VFunction f => [invoked caller target methodName f args]
  | _ => []
  end.

(** The search root of [q]: the context when one is given, the element of
    the instance otherwise. *)
Definition search_root (s : state) (this : loc) (context : option node)
  : option node :=
  match context with
  | Some c => Some c
  | None => element (objs s this)
  end.

(** The strict ancestors of a node, nearest first. *)
Fixpoint ancestors_of_path (r : root) (path : list nat) : list node :=
  match path with
  | [] => []
  | _ :: up => (r, up) :: ancestors_of_path r up
  end.

Definition ancestors (n : node) : list node :=
  ancestors_of_path (fst n) (snd n).

(** The strict ancestors below the document root. *)
Definition ancestors_below_document (n : node) : list node :=
  List.filter (fun a => negb (bool_decide (a = document))) (ancestors n).

(** The element carries the attribute [data-<key>] with the value [query]. *)
Definition carries (d : Dom) (key query : string) (a : node) : Prop :=
  getAttribute (d a) ("data-" +:+ key) = Some query.

(** The selector [parent] builds. *)
Definition parent_selector (key query : string) : string :=
  "[data-" +:+ key +:+ "=" +:+ dquote +:+ query +:+ dquote +:+ "]".

(** The entries of the array of [this] whose name is [moduleName]. *)
Definition named_instances (s : state) (this : loc) (moduleName : string)
  : list loc :=
  List.filter (fun module => name (objs s module) =? moduleName)
              (arrays s (modules (objs s this))).

(** The nodes the loop of [parent] tests when it is entered at [(r, path)]:
    that node and its strict ancestors, the document root left out. *)
Definition climbed (r : root) (path : list nat) : list node :=
  List.filter (fun a => negb (bool_decide (a = document)))
              ((r, path) :: ancestors_of_path r path).

(** The selector engine answers the selector of [parent] on the node [a] by
    whether [a] carries the attribute. *)
Definition matches_attribute (d : Dom) (key query : string) (a : node)
  : Prop :=
  exists b, matches d a (parent_selector key query) = Return b
            /\ (b = true <-> carries d key query a).

(** The computation leaves the four fields of the instance [this] as they
    were. *)
Definition keeps_fields {A} (this : loc) (m : M A) : Prop :=
  forall s, fields (objs (final (m s)) this) = fields (objs s this).

(** *** Further notions *)

(** The state after the invocations of a trace, made in order from [s]. *)
Definition replay (t : list invocation) (s : state) : state :=
  fold_left
    (fun st i => snd (applyFunction (inv_fn i) (inv_this i) (inv_args i) st))
    t s.

(** The first node of a list on which the selector engine answers [true]; an
    exception of the engine on the way is the result. *)
Fixpoint first_match (d : Dom) (selectors : string) (l : list node)
  : completion (option node) :=
  match l with
  | [] => Return None
  | a :: rest =>
      match matches d a selectors with
      | Throw e => Throw e
      | Return true => Return (Some a)
      | Return false => first_match d selectors rest
      end
  end.

(** No method writes to an array of instances. *)
Definition methods_keep_arrays : Prop :=
  forall f thisArg args s a,
    arrays (snd (applyFunction f thisArg args s)) a = arrays s a.

(** No method writes to an attribute. *)
Definition methods_keep_dom : Prop :=
  forall f thisArg args s n,
    dom (snd (applyFunction f thisArg args s)) n = dom s n.



(** The operation is a request of [setData]. *)
Definition is_setData (op : operation) : bool :=
  match op with
  | OpSetData _ _ _ => true
  | _ => false
  end.

(** Every computation of [m] ends in a state related to the one it starts
    from. *)
Definition preserves {A} (R : state -> state -> Prop) (m : M A) : Prop :=
  forall s, R s (final (m s)).


(** ** Properties *)

(** *** The invocation helper *)

Lemma callMethod_function this target methodName args s f :
  get (objs s target) methodName = VFunction f ->
  callMethod this target methodName [args] s
  = invoke target methodName f this args s.
Proof.
  intros Hget. unfold callMethod, bindM, read. rewrite Hget. simpl.
  destruct (invoke target methodName f this args s) as [[c s'] t].
  reflexivity.
Qed.

Lemma callMethod_skip this target methodName args s :
  (forall f, get (objs s target) methodName <> VFunction f) ->
  callMethod this target methodName [args] s = (Return tt, s, []).
Proof.
  intros Hget. unfold callMethod, bindM, read.
  destruct (get (objs s target) methodName) eqn:E; simpl;
    try reflexivity.
  - destruct b; reflexivity.
  - destruct (negb (z =? 0)%Z); reflexivity.
  - destruct (negb (s0 =? "")); reflexivity.
  - exfalso. apply (Hget f). reflexivity.
Qed.

Lemma invoke_trace target methodName f this args s :
  trace (invoke target methodName f this args s)
  = [invoked this target methodName f args].
Proof.
  unfold invoke, trace, invoked.
  destruct (applyFunction f this args s) as [[v|e] s']; reflexivity.
Qed.

Lemma invoke_final target methodName f this args s :
  final (invoke target methodName f this args s)
  = snd (applyFunction f this args s).
Proof.
  unfold invoke, final.
  destruct (applyFunction f this args s) as [[v|e] s']; reflexivity.
Qed.

Lemma invoke_outcome target methodName f this args s :
  outcome (invoke target methodName f this args s)
  = match fst (applyFunction f this args s) with
    | Return _ => Return tt
    | Throw e => Throw e
    end.
Proof.
  unfold invoke, outcome.
  destruct (applyFunction f this args s) as [[v|e] s']; reflexivity.
Qed.

Lemma callMethod_trace this target methodName args s :
  trace (callMethod this target methodName [args] s)
  = helper_trace s this methodName args target.
Proof.
  unfold helper_trace.
  destruct (get (objs s target) methodName) eqn:E;
    try (rewrite callMethod_skip; [reflexivity | intros f' Hf'; congruence]).
  rewrite (callMethod_function _ _ _ _ _ _ E). apply invoke_trace.
Qed.

(** C3: the helper, as [call] and [callById] reach it.  When the member of
    the target under [methodName] is a function, the helper calls that
    function once, with the calling instance as [this] (whatever the target
    is) and the arguments in their order, and completes as the function
    does; for any other member, absent ones included, it does nothing and
    returns. *)
Theorem callMethod_binds_the_caller this target methodName args s :
  match get (objs s target) methodName with
  | VFunction f =>
      trace (callMethod this target methodName [args] s)
      = [{| inv_target := target; inv_method := methodName; inv_fn := f;
            inv_this := this; inv_args := args |}]
      /\ final (callMethod this target methodName [args] s)
         = snd (applyFunction f this args s)
      /\ outcome (callMethod this target methodName [args] s)
         = match fst (applyFunction f this args s) with
           | Return _ => Return tt
           | Throw e => Throw e
           end
  | _ => callMethod this target methodName [args] s = (Return tt, s, [])
  end.
Proof.
  destruct (get (objs s target) methodName) eqn:E;
    try (apply callMethod_skip; intros f' Hf'; congruence).
  rewrite (callMethod_function _ _ _ _ _ _ E).
  split; [apply invoke_trace|].
  split; [apply invoke_final | apply invoke_outcome].
Qed.

(** *** [forEach] over the helper *)

Lemma callMethod_cases this target methodName args s :
  (exists f, get (objs s target) methodName = VFunction f
             /\ callMethod this target methodName [args] s
                = invoke target methodName f this args s)
  \/ ((forall f, get (objs s target) methodName <> VFunction f)
      /\ callMethod this target methodName [args] s = (Return tt, s, [])).
Proof.
  destruct (get (objs s target) methodName) eqn:E;
    try (right; split; [intros f' Hf'; congruence
                       | apply callMethod_skip; intros f' Hf'; congruence]).
  left. exists f. split; [reflexivity | apply callMethod_function; exact E].
Qed.

Lemma forEach_cons {A} (callback : A -> M unit) x rest s :
  forEach callback (x :: rest) s
  = match callback x s with
    | (Return _, s1, t1) =>
        match forEach callback rest s1 with
        | (c, s2, t2) => (c, s2, (t1 ++ t2)%list)
        end
    | (Throw e, s1, t1) => (Throw e, s1, t1)
    end.
Proof. reflexivity. Qed.

Lemma helper_trace_ext s s' this methodName args target :
  objs s' target = objs s target ->
  helper_trace s' this methodName args target
  = helper_trace s this methodName args target.
Proof. intros H. unfold helper_trace. rewrite H. reflexivity. Qed.

(** Whatever the methods do, an exception that leaves [forEach] is one that
    the last method invoked threw. *)
Lemma forEach_callMethod_throw this methodName args :
  forall targets s e,
    outcome (forEach (fun t => callMethod this t methodName [args]) targets s)
    = Throw e ->
    exists before i s0,
      trace (forEach (fun t => callMethod this t methodName [args])
                     targets s) = (before ++ [i])%list
      /\ inv_this i = this /\ inv_args i = args
      /\ fst (applyFunction (inv_fn i) this args s0) = Throw e.
Proof.
  induction targets as [|x rest IH]; intros s e.
  - discriminate.
  - rewrite forEach_cons.
    destruct (callMethod_cases this x methodName args s)
      as [(f & Hf & Heq) | (Hnf & Heq)]; rewrite Heq.
    + unfold invoke.
      destruct (applyFunction f this args s) as [[v|e'] s1] eqn:Happ.
      * specialize (IH s1 e).
        destruct (forEach (fun t => callMethod this t methodName [args])
                          rest s1) as [[c s2] t2].
        unfold outcome, trace in *. simpl in *. intros Hc.
        destruct (IH Hc) as (before & i & s0 & Hlast & Hrest).
        exists (invoked this x methodName f args :: before), i, s0.
        split; [|exact Hrest]. rewrite Hlast. reflexivity.
      * unfold outcome, trace. simpl. intros [= ->].
        exists [], (invoked this x methodName f args), s.
        split; [reflexivity|]. simpl. rewrite Happ. repeat split.
    + specialize (IH s e).
      destruct (forEach (fun t => callMethod this t methodName [args])
                        rest s) as [[c s2] t2].
      unfold outcome, trace in *. simpl in *. exact IH.
Qed.

(** *** [call] *)

Lemma call_none this moduleName methodName args s :
  named_instances s this moduleName = [] ->
  call this moduleName methodName args s
  = (Throw (ModularModuleNotFoundException moduleName), s, []).
Proof.
  unfold named_instances, call, bindM, read. intros ->. reflexivity.
Qed.

Lemma call_some this moduleName methodName args s :
  named_instances s this moduleName <> [] ->
  call this moduleName methodName args s
  = forEach (fun moduleInstance =>
               callMethod this moduleInstance methodName [args])
            (named_instances s this moduleName) s.
Proof.
  unfold named_instances, call, bindM, read. intros Hne.
  destruct (List.filter _ _) as [|x rest] eqn:E; [congruence|].
  change (0 <? length (x :: rest))%nat with true. cbv iota.
  destruct (forEach _ (x :: rest) s) as [[c s2] t2]. reflexivity.
Qed.

Lemma named_instances_nil s this moduleName :
  Forall (fun m => name (objs s m) <> moduleName)
         (arrays s (modules (objs s this))) ->
  named_instances s this moduleName = [].
Proof.
  unfold named_instances. induction 1 as [|x l Hx _ IH]; [reflexivity|].
  simpl. destruct (String.eqb_spec (name (objs s x)) moduleName);
    [contradiction | exact IH].
Qed.

Lemma named_instances_In s this moduleName m :
  In m (named_instances s this moduleName)
  <-> In m (arrays s (modules (objs s this)))
      /\ name (objs s m) = moduleName.
Proof.
  unfold named_instances. rewrite filter_In.
  destruct (String.eqb_spec (name (objs s m)) moduleName) as [E|E].
  - split; intros [H1 _]; split; first [exact H1 | reflexivity | exact E].
  - split; intros [H1 H2]; [discriminate | contradiction].
Qed.

Lemma named_instances_cons s this moduleName :
  Exists (fun m => name (objs s m) = moduleName)
         (arrays s (modules (objs s this))) ->
  named_instances s this moduleName <> [].
Proof.
  rewrite List.Exists_exists. intros (m & Hin & Hname) Hnil.
  assert (H : In m (named_instances s this moduleName))
    by (apply named_instances_In; auto).
  rewrite Hnil in H. exact H.
Qed.

(** C1: when no entry of the array of the instance has the name
    [moduleName], [call] throws the exception that carries [moduleName],
    invokes nothing and leaves the state as it was.  When some entry has that
    name, [call] throws nothing of its own: it returns when the methods it
    invokes return, and an exception that leaves it is one that the last
    method it invoked threw. *)
Theorem call_ModuleNotFound_iff_no_entry this moduleName methodName args s :
  let siblings := arrays s (modules (objs s this)) in
  (Forall (fun m => name (objs s m) <> moduleName) siblings ->
   call this moduleName methodName args s
   = (Throw (ModularModuleNotFoundException moduleName), s, []))
  /\
  (Exists (fun m => name (objs s m) = moduleName) siblings ->
   (methods_return ->
    outcome (call this moduleName methodName args s) = Return tt)
   /\
   (forall e,
      outcome (call this moduleName methodName args s) = Throw e ->
      exists before i s0,
        trace (call this moduleName methodName args s) = (before ++ [i])%list
        /\ inv_this i = this /\ inv_args i = args
        /\ fst (applyFunction (inv_fn i) this args s0) = Throw e)).
Proof.
  intros siblings. split.
  - intros Hnone. apply call_none, named_instances_nil, Hnone.
  - intros Hsome. apply named_instances_cons in Hsome.
    rewrite (call_some _ _ _ _ _ Hsome).
    assert (Hthrow := forEach_callMethod_throw this methodName args
                        (named_instances s this moduleName) s).
    split; [|exact Hthrow].
    intros Hret.
    destruct (outcome (forEach _ (named_instances s this moduleName) s))
      as [[]|e] eqn:E; [reflexivity|].
    destruct (Hthrow e eq_refl) as (before & i & s0 & _ & _ & _ & Hi).
    destruct (Hret (inv_fn i) this args s0) as [v Hv]. congruence.
Qed.

(** *** [callById] *)

Lemma find_first {A} (p : A -> bool) (l before after : list A) (x : A) :
  l = (before ++ x :: after)%list ->
  Forall (fun y => p y = false) before -> p x = true ->
  List.find p l = Some x.
Proof.
  intros -> Hbefore Hx. induction Hbefore as [|y before Hy _ IH]; simpl.
  - rewrite Hx. reflexivity.
  - rewrite Hy. exact IH.
Qed.

Lemma find_is_first {A} (p : A -> bool) (l : list A) (x : A) :
  List.find p l = Some x ->
  exists before after,
    l = (before ++ x :: after)%list
    /\ Forall (fun y => p y = false) before /\ p x = true.
Proof.
  induction l as [|y l IH]; simpl; [discriminate|].
  destruct (p y) eqn:Hy.
  - intros [= ->]. exists [], l. repeat split; [constructor | exact Hy].
  - intros Hfind. destruct (IH Hfind) as (before & after & -> & Hb & Hx).
    exists (y :: before), after. repeat split; [|exact Hx].
    constructor; assumption.
Qed.

Lemma find_nothing {A} (p : A -> bool) (l : list A) :
  Forall (fun y => p y = false) l -> List.find p l = None.
Proof.
  induction 1 as [|y l Hy _ IH]; simpl; [reflexivity|].
  rewrite Hy. exact IH.
Qed.

Lemma Forall_ID_neq s id (l : list loc) :
  Forall (fun m => ID (objs s m) <> id) l <->
  Forall (fun m => (ID (objs s m) =? id)%Z = false) l.
Proof.
  split; apply List.Forall_impl; intros m; rewrite Z.eqb_neq; auto.
Qed.

Lemma callById_found this id methodName args s target :
  List.find (fun m => (ID (objs s m) =? id)%Z)
            (arrays s (modules (objs s this))) = Some target ->
  callById this id methodName args s
  = callMethod this target methodName [args] s.
Proof.
  intros Hfind. unfold callById, bindM at 1, read. rewrite Hfind.
  destruct (callMethod this target methodName [args] s) as [[c s2] t2].
  reflexivity.
Qed.

Lemma callById_missing this id methodName args s :
  List.find (fun m => (ID (objs s m) =? id)%Z)
            (arrays s (modules (objs s this))) = None ->
  callById this id methodName args s
  = (Throw (ModularModuleIdNotFoundException id), s, []).
Proof.
  intros Hfind. unfold callById, bindM, read. rewrite Hfind. reflexivity.
Qed.

(** C4: [callById] hands the first entry of the array whose ID is [id] to
    the helper, with the name of the method and the arguments; when no entry
    has that ID it throws the exception that carries [id], invokes nothing
    and leaves the state as it was. *)
Theorem callById_first_or_IdNotFound this id methodName args s :
  let siblings := arrays s (modules (objs s this)) in
  (forall before target after,
     siblings = (before ++ target :: after)%list ->
     Forall (fun m => ID (objs s m) <> id) before ->
     ID (objs s target) = id ->
     callById this id methodName args s
     = callMethod this target methodName [args] s
     /\ trace (callById this id methodName args s)
        = helper_trace s this methodName args target)
  /\
  (Forall (fun m => ID (objs s m) <> id) siblings ->
   callById this id methodName args s
   = (Throw (ModularModuleIdNotFoundException id), s, [])).
Proof.
  intros siblings. split.
  - intros before target after Hsplit Hbefore Htarget.
    assert (Hfind : List.find (fun m => (ID (objs s m) =? id)%Z) siblings
                    = Some target).
    { apply (find_first _ _ before after); [exact Hsplit| |].
      - apply Forall_ID_neq. exact Hbefore.
      - apply Z.eqb_eq. exact Htarget. }
    rewrite (callById_found _ _ _ _ _ _ Hfind).
    split; [reflexivity | apply callMethod_trace].
  - intros Hnone. apply callById_missing, find_nothing, Forall_ID_neq, Hnone.
Qed.

(** C10: [callById] makes at most one invocation, and the instance it
    invokes the method on is the first entry of the array whose ID is [id],
    whether or not later entries have the same ID. *)
Theorem callById_at_most_one_invocation this id methodName args s :
  (length (trace (callById this id methodName args s)) <= 1)%nat
  /\ forall i,
       In i (trace (callById this id methodName args s)) ->
       inv_this i = this /\ inv_args i = args
       /\ exists before after,
            arrays s (modules (objs s this))
            = (before ++ inv_target i :: after)%list
            /\ Forall (fun m => ID (objs s m) <> id) before
            /\ ID (objs s (inv_target i)) = id.
Proof.
  destruct (List.find (fun m => (ID (objs s m) =? id)%Z)
                      (arrays s (modules (objs s this)))) as [target|] eqn:E.
  - rewrite (callById_found _ _ _ _ _ _ E), callMethod_trace.
    destruct (find_is_first _ _ _ E) as (before & after & Hsplit & Hb & Hx).
    unfold helper_trace.
    destruct (get (objs s target) methodName);
      try solve [split; [simpl; lia | intros i []]].
    split; [simpl; lia|]. intros i [<-|[]]. simpl.
    repeat split. exists before, after. split; [exact Hsplit|].
    split; [apply Forall_ID_neq; exact Hb | apply Z.eqb_eq; exact Hx].
  - rewrite (callById_missing _ _ _ _ _ E). split; [simpl; lia | intros i []].
Qed.

(** *** [q] *)

(** C5: the search root of [q] is the context when one is given and the
    element of the instance otherwise; with no root [q] returns [null]; with
    a root it searches the descendants of the root with the selector built
    from the name of the instance and returns [null] for no match, the
    element for one match, and the whole list in its order for two matches
    or more.  It invokes nothing and leaves the state as it was. *)
Theorem q_result_by_number_of_matches this selectors context s :
  (search_root s this context = None ->
   q this selectors context s = (Return QNull, s, []))
  /\
  (forall r found,
     search_root s this context = Some r ->
     querySelectorAll (dom s) r
       (generateCustomQuery (name (objs s this)) selectors) = Return found ->
     (length found = 0%nat ->
      q this selectors context s = (Return QNull, s, []))
     /\ (forall e, found = [e] ->
         q this selectors context s = (Return (QElement e), s, []))
     /\ ((2 <= length found)%nat ->
         q this selectors context s = (Return (QElements found), s, []))).
Proof.
  unfold search_root, q. split.
  - destruct context as [c|]; [discriminate|]. simpl. intros ->. reflexivity.
  - intros r found Hroot Hsearch.
    assert (Hq : (if isObject (value_of_context context) then context
                  else element (objs s this)) = Some r)
      by (destruct context; simpl; exact Hroot).
    rewrite Hq, Hsearch. repeat split.
    + destruct found; [reflexivity | discriminate].
    + intros e ->. reflexivity.
    + destruct found as [|a [|b rest]]; simpl; try lia. reflexivity.
Qed.

(** *** [parent] *)

(** The loop equation of [while (parent && parent !== document)]. *)
Lemma parent_loop_eq d data cur :
  parent_loop d data cur
  = match cur with
    | None => Return None
    | Some n =>
        if decide (n = document) then Return None
        else match matches d n data with
             | Throw e => Throw e
             | Return true => Return (Some n)
             | Return false => parent_loop d data (parentNode n)
             end
    end.
Proof.
  destruct cur as [[r path]|]; [|reflexivity].
  destruct path as [|i up]; simpl; reflexivity.
Qed.

Lemma parent_climb_eq d data r path :
  parent_climb d data r path
  = if decide ((r, path) = document) then Return None
    else match matches d (r, path) data with
         | Throw e => Throw e
         | Return true => Return (Some (r, path))
         | Return false =>
             match path with
             | [] => Return None
             | _ :: up => parent_climb d data r up
             end
         end.
Proof. destruct path; reflexivity. Qed.

Lemma climbed_step r i up :
  climbed r (i :: up) = (r, i :: up) :: climbed r up.
Proof.
  unfold climbed. cbn [List.filter ancestors_of_path].
  case_bool_decide as E; [discriminate E | reflexivity].
Qed.

Lemma parent_climb_nearest d key query r path :
  Forall (matches_attribute d key query) (climbed r path) ->
  exists result,
    parent_climb d (parent_selector key query) r path = Return result
    /\ match result with
       | Some a =>
           exists nearer further,
             climbed r path = (nearer ++ a :: further)%list
             /\ carries d key query a
             /\ Forall (fun b => ~ carries d key query b) nearer
       | None => Forall (fun b => ~ carries d key query b) (climbed r path)
       end.
Proof.
  induction path as [|i up IH].
  - destruct r as [|t|t]; simpl.
    + intros _. exists None. split; [reflexivity | constructor].
    + intros Hm. apply Forall_inv in Hm. destruct Hm as (b & Hb & Hiff).
      rewrite Hb. destruct b.
      * exists (Some (Detached t, [])). split; [reflexivity|].
        exists [], []. repeat split; [apply Hiff; reflexivity | constructor].
      * exists None. split; [reflexivity|]. unfold climbed. simpl.
        constructor; [|constructor]. intros Hc. apply Hiff in Hc. discriminate.
    + intros Hm. apply Forall_inv in Hm. destruct Hm as (b & Hb & Hiff).
      rewrite Hb. destruct b.
      * exists (Some (Fragment t, [])). split; [reflexivity|].
        exists [], []. repeat split; [apply Hiff; reflexivity | constructor].
      * exists None. split; [reflexivity|]. unfold climbed. simpl.
        constructor; [|constructor]. intros Hc. apply Hiff in Hc. discriminate.
  - rewrite climbed_step. intros Hm.
    pose proof (Forall_inv Hm) as (b & Hb & Hiff).
    apply Forall_inv_tail in Hm. rewrite parent_climb_eq.
    destruct (decide ((r, i :: up) = document)) as [E|_]; [discriminate|].
    rewrite Hb. destruct b.
    + exists (Some (r, i :: up)). split; [reflexivity|].
      exists [], (climbed r up).
      repeat split; [apply Hiff; reflexivity | constructor].
    + destruct (IH Hm) as (result & Hres & Hspec).
      exists result. split; [exact Hres|].
      assert (Hno : ~ carries d key query (r, i :: up))
        by (intros Hc; apply Hiff in Hc; discriminate).
      destruct result as [a|].
      * destruct Hspec as (nearer & further & Hsplit & Hc & Hnear).
        exists ((r, i :: up) :: nearer), further.
        rewrite Hsplit. repeat split; [exact Hc|].
        constructor; assumption.
      * constructor; assumption.
Qed.

Lemma ancestors_below_document_climbed r i up :
  ancestors_below_document (r, i :: up) = climbed r up.
Proof. reflexivity. Qed.

(** When the selector engine answers the selector on each strict ancestor
    below the document by whether it carries the attribute, [parent] returns
    the nearest one that carries it, and [undefined] when none does. *)
Lemma parent_nearest_when_engine_tests_attribute this query target s :
  Forall (matches_attribute (dom s) (name (objs s this)) query)
         (ancestors_below_document target) ->
  exists result,
    parent this query target s = (Return result, s, [])
    /\ match result with
       | Some a =>
           exists nearer further,
             ancestors_below_document target
             = (nearer ++ a :: further)%list
             /\ carries (dom s) (name (objs s this)) query a
             /\ Forall (fun b => ~ carries (dom s) (name (objs s this)) query b)
                       nearer
       | None =>
           Forall (fun b => ~ carries (dom s) (name (objs s this)) query b)
                  (ancestors_below_document target)
       end.
Proof.
  destruct target as [r [|i up]]; intros Hm.
  - exists None. split; [reflexivity | constructor].
  - rewrite ancestors_below_document_climbed in *.
    destruct (parent_climb_nearest _ _ _ _ _ Hm) as (result & Hres & Hspec).
    exists result. split; [|exact Hspec].
    unfold parent, parentNode, parent_loop. simpl.
    unfold parent_selector in Hres. rewrite Hres. reflexivity.
Qed.

(** *** [getData] and [setData] *)

Lemma first_attribute_set attrs k value :
  first_attribute (set_first_attribute attrs k value) k = Some value.
Proof.
  induction attrs as [|[k0 v] rest IH]; simpl.
  - rewrite String.eqb_refl. reflexivity.
  - destruct (k0 =? k) eqn:E; simpl; rewrite E;
      [reflexivity | exact IH].
Qed.

Lemma setData_valid this qualifiedName value el s :
  valid_attribute_name ("data-" +:+ qualifiedName) = true ->
  setData this qualifiedName value (Some el) s
  = (Return tt,
     {| objs := objs s; arrays := arrays s;
        dom := dom_update (dom s) el
                 (set_first_attribute (dom s el)
                    (ascii_lowercase ("data-" +:+ qualifiedName)) value);
        world := world s |},
     []).
Proof.
  intros Hvalid. unfold setData, setAttribute. rewrite Hvalid. reflexivity.
Qed.

Lemma setData_invalid this qualifiedName value el s :
  valid_attribute_name ("data-" +:+ qualifiedName) = false ->
  setData this qualifiedName value (Some el) s
  = (Throw (DOMException "InvalidCharacterError"), s, []).
Proof.
  intros Hvalid. unfold setData, setAttribute. rewrite Hvalid. reflexivity.
Qed.

Lemma string_forall_impl (f g : ascii -> bool) s :
  (forall c, f c = true -> g c = true) ->
  string_forall f s = true -> string_forall g s = true.
Proof.
  intros Hfg. induction s as [|c s IH]; simpl; [reflexivity|].
  intros H. apply andb_prop in H. destruct H as (Hc & Hs).
  rewrite (Hfg c Hc), (IH Hs). reflexivity.
Qed.

Lemma plain_data_key_valid key :
  plain_data_key key = true ->
  valid_attribute_name ("data-" +:+ key) = true.
Proof.
  intros Hkey. unfold plain_data_key in Hkey.
  apply (string_forall_impl _ name_char) in Hkey;
    [|intros c Hc; unfold name_char; rewrite Hc; reflexivity].
  simpl. exact Hkey.
Qed.

(** C7, as amended: on one element, with a key made of ASCII name
    characters (letters, digits, [-], [.], [_] and [:]), [setData] returns
    and [getData] after it under the same key returns the value that was
    set. *)
Theorem setData_then_getData_valid_name this qualifiedName value el s :
  plain_data_key qualifiedName = true ->
  outcome (setData this qualifiedName value (Some el) s) = Return tt
  /\ getData this qualifiedName (Some el)
             (final (setData this qualifiedName value (Some el) s))
     = (Return (Some value),
        final (setData this qualifiedName value (Some el) s), []).
Proof.
  intros Hkey. apply plain_data_key_valid in Hkey.
  rewrite (setData_valid _ _ _ _ _ Hkey).
  split; [reflexivity|].
  unfold getData, getAttribute, final, dom_update. simpl.
  destruct (decide (el = el)) as [_|Hne]; [|contradiction].
  rewrite first_attribute_set. reflexivity.
Qed.

(** *** The fields of an instance *)

Lemma keeps_ret {A} this (a : A) : keeps_fields this (ret a).
Proof. intros s. reflexivity. Qed.

Lemma keeps_throw {A} this e : keeps_fields this (@throw A e).
Proof. intros s. reflexivity. Qed.

Lemma keeps_read {A} this (f : state -> A) : keeps_fields this (read f).
Proof. intros s. reflexivity. Qed.

Lemma keeps_bindM {A B} this (m : M A) (k : A -> M B) :
  keeps_fields this m -> (forall a, keeps_fields this (k a)) ->
  keeps_fields this (bindM m k).
Proof.
  intros Hm Hk s. unfold bindM. specialize (Hm s).
  destruct (m s) as [[[a|e] s1] t1]; unfold final in *; simpl in *.
  - specialize (Hk a s1). destruct (k a s1) as [[c s2] t2].
    unfold final in Hk. simpl in *. congruence.
  - exact Hm.
Qed.

Lemma keeps_forEach {A} this (callback : A -> M unit) l :
  (forall x, keeps_fields this (callback x)) ->
  keeps_fields this (forEach callback l).
Proof.
  intros Hc. induction l as [|x rest IH]; simpl.
  - apply keeps_ret.
  - apply keeps_bindM; [apply Hc | intros _; exact IH].
Qed.

Lemma keeps_invoke this target methodName f thisArg args :
  methods_keep_fields this ->
  keeps_fields this (invoke target methodName f thisArg args).
Proof.
  intros Hkeep s. rewrite invoke_final. apply Hkeep.
Qed.

Lemma keeps_callMethod this caller target methodName args :
  methods_keep_fields this ->
  keeps_fields this (callMethod caller target methodName args).
Proof.
  intros Hkeep. unfold callMethod. apply keeps_bindM; [apply keeps_read|].
  intros v. destruct (truthy v && isFunction v); [|apply keeps_ret].
  destruct v; try apply keeps_throw. apply keeps_invoke, Hkeep.
Qed.

Lemma keeps_call this caller moduleName methodName args :
  methods_keep_fields this ->
  keeps_fields this (call caller moduleName methodName args).
Proof.
  intros Hkeep. unfold call. apply keeps_bindM; [apply keeps_read|].
  intros l. destruct (0 <? length l)%nat; [|apply keeps_throw].
  apply keeps_forEach. intros x. apply keeps_callMethod, Hkeep.
Qed.

Lemma keeps_callById this caller id methodName args :
  methods_keep_fields this ->
  keeps_fields this (callById caller id methodName args).
Proof.
  intros Hkeep. unfold callById. apply keeps_bindM; [apply keeps_read|].
  intros [target|]; [apply keeps_callMethod, Hkeep | apply keeps_throw].
Qed.

Lemma keeps_q this caller selectors context :
  keeps_fields this (q caller selectors context).
Proof.
  intros s. unfold q.
  destruct (if isObject (value_of_context context) then context
            else element (objs s caller)) as [r|]; [|reflexivity].
  destruct (querySelectorAll _ _ _) as [found|e]; [|reflexivity].
  destruct (0 <? length found)%nat; [|reflexivity].
  destruct (length found =? 1)%nat; reflexivity.
Qed.

Lemma keeps_parent this caller query target :
  keeps_fields this (parent caller query target).
Proof. intros s. reflexivity. Qed.

Lemma keeps_getData this caller qualifiedName target :
  keeps_fields this (getData caller qualifiedName target).
Proof.
  intros s. unfold getData.
  destruct (match target with Some t => Some t | None => _ end);
    reflexivity.
Qed.

Lemma keeps_setData this caller qualifiedName value target :
  keeps_fields this (setData caller qualifiedName value target).
Proof.
  intros s. unfold setData.
  destruct (match target with Some t => Some t | None => _ end);
    [|reflexivity].
  destruct (setAttribute _ _ _); reflexivity.
Qed.

Lemma perform_keeps_fields this caller op s :
  methods_keep_fields this ->
  fields (objs (perform caller op s) this) = fields (objs s this).
Proof.
  intros Hkeep. destruct op; simpl.
  - apply (keeps_ret this tt).
  - apply (keeps_ret this tt).
  - apply (keeps_ret this tt).
  - apply keeps_call, Hkeep.
  - apply keeps_callById, Hkeep.
  - apply keeps_q.
  - apply keeps_parent.
  - apply keeps_getData.
  - apply keeps_setData.
Qed.

Lemma perform_all_keeps_fields this ops :
  methods_keep_fields this ->
  forall s,
    fields (objs (perform_all this ops s) this) = fields (objs s this).
Proof.
  intros Hkeep. unfold perform_all.
  induction ops as [|op ops IH]; intros s; [reflexivity|].
  simpl. rewrite IH. apply perform_keeps_fields, Hkeep.
Qed.

(** C8: no operation of the base class writes to the fields of an instance.
    When the methods that [call] and [callById] invoke do not write to them
    either, then after any sequence of [init], [destroy], [bind], [call],
    [callById], [q], [parent], [getData] and [setData] requested on the
    instance, its element, ID and name and the reference to its array are
    those the constructor stored. *)
Theorem fields_unchanged_by_operations this options methods ops s :
  objs s this = constructor options methods ->
  methods_keep_fields this ->
  element (objs (perform_all this ops s) this) = ModuleOptions.element options
  /\ ID (objs (perform_all this ops s) this) = ModuleOptions.ID options
  /\ name (objs (perform_all this ops s) this) = ModuleOptions.name options
  /\ modules (objs (perform_all this ops s) this)
     = ModuleOptions.modules options.
Proof.
  intros Hnew Hkeep.
  pose proof (perform_all_keeps_fields this ops Hkeep s) as H.
  rewrite Hnew in H. unfold fields in H. simpl in H.
  injection H as H1 H2 H3 H4. auto.
Qed.

(** ** Further properties *)

(** *** What [call] and [callById] do to the state *)

Lemma replay_app t1 t2 s :
  replay (t1 ++ t2)%list s = replay t2 (replay t1 s).
Proof. unfold replay. apply fold_left_app. Qed.

Lemma callMethod_replay this target methodName args s :
  final (callMethod this target methodName [args] s)
  = replay (trace (callMethod this target methodName [args] s)) s.
Proof.
  destruct (callMethod_cases this target methodName args s)
    as [(f & Hf & Heq) | (Hnf & Heq)]; rewrite Heq; [|reflexivity].
  rewrite invoke_final, invoke_trace. reflexivity.
Qed.

Lemma forEach_replay this methodName args targets :
  forall s,
    final (forEach (fun t => callMethod this t methodName [args]) targets s)
    = replay
        (trace (forEach (fun t => callMethod this t methodName [args])
                        targets s)) s.
Proof.
  induction targets as [|x rest IH]; intros s; [reflexivity|].
  rewrite forEach_cons.
  pose proof (callMethod_replay this x methodName args s) as Hx.
  destruct (callMethod this x methodName [args] s) as [[[u|e] s1] t1];
    unfold final, trace in Hx; simpl in Hx; [|exact Hx].
  specialize (IH s1).
  destruct (forEach (fun t => callMethod this t methodName [args]) rest s1)
    as [[c s2] t2].
  unfold final, trace in *. simpl in *.
  rewrite replay_app, <- Hx. exact IH.
Qed.

(** X1: [call] and [callById] write nothing themselves.  Whatever the
    methods do, the state they end in is the state the invoked methods
    produce, one after the other in the order of the trace, from the state
    the operation started in. *)
Theorem dispatch_state_is_the_work_of_the_methods
    this moduleName id methodName args s :
  final (call this moduleName methodName args s)
  = replay (trace (call this moduleName methodName args s)) s
  /\ final (callById this id methodName args s)
     = replay (trace (callById this id methodName args s)) s.
Proof.
  split.
  - destruct (named_instances s this moduleName) as [|x rest] eqn:E.
    + rewrite (call_none _ _ _ _ _ E). reflexivity.
    + rewrite call_some by (rewrite E; discriminate).
      apply forEach_replay.
  - destruct (List.find (fun m => (ID (objs s m) =? id)%Z)
                        (arrays s (modules (objs s this))))
      as [target|] eqn:E.
    + rewrite (callById_found _ _ _ _ _ _ E). apply callMethod_replay.
    + rewrite (callById_missing _ _ _ _ _ E). reflexivity.
Qed.

(** *** The invocations of [call], whatever the methods do *)

Lemma forEach_in_order this methodName args targets :
  forall s,
    sublist
      (map inv_target
           (trace (forEach (fun t => callMethod this t methodName [args])
                           targets s)))
      targets
    /\ Forall (fun i => inv_this i = this /\ inv_args i = args
                        /\ inv_method i = methodName)
              (trace (forEach (fun t => callMethod this t methodName [args])
                              targets s)).
Proof.
  induction targets as [|x rest IH]; intros s.
  - split; constructor.
  - rewrite forEach_cons.
    pose proof (callMethod_trace this x methodName args s) as Hx.
    destruct (callMethod this x methodName [args] s) as [[[u|e] s1] t1];
      unfold trace in Hx; simpl in Hx; subst t1; unfold helper_trace.
    + destruct (IH s1) as (Hsub & Hall).
      destruct (forEach (fun t => callMethod this t methodName [args])
                        rest s1) as [[c s2] t2].
      unfold trace in *. simpl in *.
      destruct (get (objs s x) methodName); simpl;
        try (split; [apply sublist_cons; exact Hsub | exact Hall]).
      split; [apply sublist_skip; exact Hsub|].
      constructor; [simpl; auto | exact Hall].
    + unfold trace. simpl.
      destruct (get (objs s x) methodName); simpl;
        try (split; [apply sublist_nil_l | constructor]).
      split; [apply sublist_skip, sublist_nil_l|].
      constructor; [simpl; auto | constructor].
Qed.

(** X2: whatever the methods do (return, throw, rewrite the instances or the
    array), the instances [call] invokes a method on are entries of the
    array that had the name [moduleName] when [call] started, taken in the
    order of the array without going back, and every invocation receives the
    caller as [this], the name asked for and the full list of arguments. *)
Theorem call_invocations_follow_the_array
    this moduleName methodName args s :
  sublist (map inv_target (trace (call this moduleName methodName args s)))
          (named_instances s this moduleName)
  /\ Forall (fun i => inv_this i = this /\ inv_args i = args
                      /\ inv_method i = methodName)
            (trace (call this moduleName methodName args s)).
Proof.
  destruct (named_instances s this moduleName) as [|x rest] eqn:E.
  - rewrite (call_none _ _ _ _ _ E). split; constructor.
  - rewrite call_some by (rewrite E; discriminate). rewrite E.
    apply forEach_in_order.
Qed.

(** *** [call] and a method that throws *)

Lemma forEach_stops this methodName args e s before x after f :
  methods_keep_instances ->
  Forall (fun l => forall g,
            get (objs s l) methodName = VFunction g ->
            forall s0, exists v,
              fst (applyFunction g this args s0) = Return v) before ->
  get (objs s x) methodName = VFunction f ->
  (forall s0, fst (applyFunction f this args s0) = Throw e) ->
  forall s1,
    (forall l, objs s1 l = objs s l) ->
    outcome (forEach (fun t => callMethod this t methodName [args])
                     (before ++ x :: after) s1) = Throw e
    /\ trace (forEach (fun t => callMethod this t methodName [args])
                      (before ++ x :: after) s1)
       = flat_map (helper_trace s this methodName args) (before ++ [x]).
Proof.
  intros Hkeep Hbefore Hx Hthrow.
  induction Hbefore as [|y before Hy _ IH]; intros s1 Hs1.
  - simpl app. rewrite forEach_cons.
    assert (Hx1 : get (objs s1 x) methodName = VFunction f)
      by (rewrite Hs1; exact Hx).
    rewrite (callMethod_function _ _ _ _ _ _ Hx1). unfold invoke.
    specialize (Hthrow s1).
    destruct (applyFunction f this args s1) as [c s2]. simpl in Hthrow.
    subst c. unfold outcome, trace, helper_trace. simpl. rewrite Hx.
    split; reflexivity.
  - simpl app. rewrite forEach_cons.
    assert (Hstep : exists s2,
               callMethod this y methodName [args] s1
               = (Return tt, s2, helper_trace s this methodName args y)
               /\ forall l, objs s2 l = objs s l).
    { pose proof (callMethod_trace this y methodName args s1) as Ht.
      rewrite (helper_trace_ext s s1) in Ht by apply Hs1.
      destruct (callMethod_cases this y methodName args s1)
        as [(g & Hg & Heq) | (Hng & Heq)]; rewrite Heq in *.
      - exists (snd (applyFunction g this args s1)).
        split; [|intros l; rewrite Hkeep; apply Hs1].
        rewrite Hs1 in Hg. destruct (Hy g Hg s1) as [v Hv].
        unfold trace in Ht. rewrite <- Ht. unfold invoke.
        destruct (applyFunction g this args s1) as [c s2]. simpl in *.
        subst c. reflexivity.
      - exists s1. unfold trace in Ht. simpl in Ht. rewrite <- Ht.
        split; [reflexivity | exact Hs1]. }
    destruct Hstep as (s2 & Heq & Hs2). rewrite Heq.
    destruct (IH s2 Hs2) as (Ho & Ht).
    destruct (forEach (fun t => callMethod this t methodName [args])
                      (before ++ x :: after) s2) as [[c s3] t3].
    unfold outcome, trace in *. simpl in *. subst t3.
    split; [exact Ho | reflexivity].
Qed.

(** X3: [call] stops at the first method that throws.  When the methods
    leave the instances alone, the methods of the entries before [x] return
    and the method of the entry [x] throws [e], then [e] leaves [call], the
    entries up to [x] have been reached in order, and no entry after [x] is
    reached. *)
Theorem call_stops_at_the_first_throw
    this moduleName methodName args s before x after f e :
  named_instances s this moduleName = (before ++ x :: after)%list ->
  methods_keep_instances ->
  Forall (fun l => forall g,
            get (objs s l) methodName = VFunction g ->
            forall s0, exists v,
              fst (applyFunction g this args s0) = Return v) before ->
  get (objs s x) methodName = VFunction f ->
  (forall s0, fst (applyFunction f this args s0) = Throw e) ->
  outcome (call this moduleName methodName args s) = Throw e
  /\ trace (call this moduleName methodName args s)
     = flat_map (helper_trace s this methodName args) (before ++ [x]).
Proof.
  intros Hsplit Hkeep Hbefore Hx Hthrow.
  rewrite call_some by (rewrite Hsplit; destruct before; discriminate).
  rewrite Hsplit.
  apply (forEach_stops this methodName args e s before x after f);
    auto.
Qed.

(** *** [call] and a method no instance has *)

Lemma forEach_skips this methodName args s targets :
  Forall (fun l => forall f, get (objs s l) methodName <> VFunction f)
         targets ->
  forEach (fun t => callMethod this t methodName [args]) targets s
  = (Return tt, s, []).
Proof.
  induction 1 as [|x rest Hx _ IH]; [reflexivity|].
  rewrite forEach_cons, (callMethod_skip _ _ _ _ _ Hx), IH. reflexivity.
Qed.

(** X4: a method no instance of the name has is no error.  When some entry
    has the name [moduleName] and no entry of that name has a callable
    member [methodName], [call] returns, invokes nothing and leaves the
    state as it was. *)
Theorem call_without_callable_member this moduleName methodName args s :
  Exists (fun m => name (objs s m) = moduleName)
         (arrays s (modules (objs s this))) ->
  Forall (fun l => forall f, get (objs s l) methodName <> VFunction f)
         (named_instances s this moduleName) ->
  call this moduleName methodName args s = (Return tt, s, []).
Proof.
  intros Hsome Hnone. apply named_instances_cons in Hsome.
  rewrite (call_some _ _ _ _ _ Hsome). apply forEach_skips, Hnone.
Qed.

(** *** [call] and [callById] on the same instance *)

(** X5: when one entry of the array has the name [moduleName], once, and
    the IDs of the array are unique, [call] with that name and [callById]
    with the ID of that entry are the same operation: same outcome, same
    state, same trace. *)
Theorem call_of_a_unique_name_is_callById
    this moduleName id methodName args s l :
  named_instances s this moduleName = [l] ->
  ID (objs s l) = id ->
  (forall l', In l' (arrays s (modules (objs s this))) ->
              ID (objs s l') = id -> l' = l) ->
  call this moduleName methodName args s
  = callById this id methodName args s.
Proof.
  intros Hone Hid Hunique.
  assert (Hin : In l (arrays s (modules (objs s this)))).
  { apply (named_instances_In s this moduleName l). rewrite Hone.
    left. reflexivity. }
  assert (Hfind : List.find (fun m => (ID (objs s m) =? id)%Z)
                            (arrays s (modules (objs s this))) = Some l).
  { destruct (List.find _ _) as [l'|] eqn:E.
    - apply find_some in E. destruct E as (Hin' & Heq).
      apply Z.eqb_eq in Heq. f_equal. apply Hunique; assumption.
    - apply (find_none _ _ E) in Hin. apply Z.eqb_neq in Hin.
      contradiction. }
  rewrite (callById_found _ _ _ _ _ _ Hfind).
  rewrite call_some by (rewrite Hone; discriminate).
  rewrite Hone, forEach_cons.
  destruct (callMethod this l methodName [args] s) as [[[[]|e] s1] t1];
    simpl; [rewrite app_nil_r|]; reflexivity.
Qed.

(** *** What [q] returns *)

(** X6: the result of [q] tells how the search went.  [null] means no root
    or no match; an element means it was the only match; an array means it
    is the list of the matches and there are two or more of them, so that
    [q] never returns an array that is empty or has one element; and [q]
    throws only what the selector engine threw. *)
Theorem q_result_tells_the_matches this selectors context s :
  match outcome (q this selectors context s) with
  | Return QNull =>
      search_root s this context = None
      \/ exists r,
           search_root s this context = Some r
           /\ querySelectorAll (dom s) r
                (generateCustomQuery (name (objs s this)) selectors)
              = Return []
  | Return (QElement e) =>
      exists r,
        search_root s this context = Some r
        /\ querySelectorAll (dom s) r
             (generateCustomQuery (name (objs s this)) selectors)
           = Return [e]
  | Return (QElements es) =>
      exists r,
        search_root s this context = Some r
        /\ querySelectorAll (dom s) r
             (generateCustomQuery (name (objs s this)) selectors)
           = Return es
        /\ (2 <= length es)%nat
  | Throw e =>
      exists r,
        search_root s this context = Some r
        /\ querySelectorAll (dom s) r
             (generateCustomQuery (name (objs s this)) selectors)
           = Throw e
  end.
Proof.
  unfold q, search_root.
  assert (Hroot : (if isObject (value_of_context context) then context
                   else element (objs s this))
                  = match context with
                    | Some c => Some c
                    | None => element (objs s this)
                    end) by (destruct context; reflexivity).
  rewrite Hroot.
  destruct (match context with
            | Some c => Some c
            | None => element (objs s this)
            end) as [r|]; [|left; reflexivity].
  destruct (querySelectorAll (dom s) r
              (generateCustomQuery (name (objs s this)) selectors))
    as [found|e] eqn:E; unfold outcome; simpl;
    [|exists r; split; [reflexivity | exact E]].
  destruct found as [|a [|b rest]]; simpl.
  - right. exists r. split; [reflexivity | exact E].
  - exists r. split; [reflexivity | exact E].
  - exists r. split; [reflexivity|]. split; [exact E | simpl; lia].
Qed.

(** *** The operations that only read *)

Lemma q_reads this selectors context s :
  final (q this selectors context s) = s
  /\ trace (q this selectors context s) = [].
Proof.
  unfold q.
  destruct (if isObject (value_of_context context) then context
            else element (objs s this)) as [r|];
    [|split; reflexivity].
  destruct (querySelectorAll _ _ _) as [found|e]; [|split; reflexivity].
  destruct (0 <? length found)%nat; [|split; reflexivity].
  destruct (length found =? 1)%nat; split; reflexivity.
Qed.

Lemma getData_reads this qualifiedName target s :
  final (getData this qualifiedName target s) = s
  /\ trace (getData this qualifiedName target s) = [].
Proof.
  unfold getData.
  destruct (match target with
            | Some t => Some t
            | None => element (objs s this)
            end); split; reflexivity.
Qed.

(** X7: [q], [parent] and [getData] only read.  Whatever they return or
    throw, they leave the state as it was and invoke no method. *)
Theorem lookups_only_read
    this selectors context query target qualifiedName el s :
  (final (q this selectors context s) = s
   /\ trace (q this selectors context s) = [])
  /\ (final (parent this query target s) = s
      /\ trace (parent this query target s) = [])
  /\ (final (getData this qualifiedName el s) = s
      /\ trace (getData this qualifiedName el s) = []).
Proof.
  split; [apply q_reads|]. split; [split; reflexivity | apply getData_reads].
Qed.

(** *** [parent], whatever the selector engine answers *)

Lemma parent_climb_scans d selectors r path :
  parent_climb d selectors r path = first_match d selectors (climbed r path).
Proof.
  induction path as [|i up IH].
  - destruct r as [|t|t]; [reflexivity| |].
    + rewrite parent_climb_eq.
      destruct (decide ((Detached t, []) = document)) as [E|_];
        [discriminate|].
      change (climbed (Detached t) []) with [(Detached t, @nil nat)].
      simpl. destruct (matches d (Detached t, []) selectors) as [[|]|e];
        reflexivity.
    + rewrite parent_climb_eq.
      destruct (decide ((Fragment t, []) = document)) as [E|_];
        [discriminate|].
      change (climbed (Fragment t) []) with [(Fragment t, @nil nat)].
      simpl. destruct (matches d (Fragment t, []) selectors) as [[|]|e];
        reflexivity.
  - rewrite climbed_step, parent_climb_eq.
    destruct (decide ((r, i :: up) = document)) as [E|_]; [discriminate|].
    simpl. rewrite IH. reflexivity.
Qed.

Lemma parent_scans this query target s :
  parent this query target s
  = (first_match (dom s) (parent_selector (name (objs s this)) query)
                 (ancestors_below_document target), s, []).
Proof.
  destruct target as [r [|i up]]; [reflexivity|].
  rewrite ancestors_below_document_climbed, <- parent_climb_scans.
  reflexivity.
Qed.

Lemma first_match_found d selectors l a :
  first_match d selectors l = Return (Some a) ->
  exists nearer further,
    l = (nearer ++ a :: further)%list
    /\ Forall (fun b => matches d b selectors = Return false) nearer
    /\ matches d a selectors = Return true.
Proof.
  induction l as [|b rest IH]; simpl; [discriminate|].
  destruct (matches d b selectors) as [[|]|e] eqn:E; try discriminate.
  - intros [= ->]. exists [], rest. repeat split; [constructor | exact E].
  - intros H. destruct (IH H) as (nearer & further & -> & Hn & Ha).
    exists (b :: nearer), further. repeat split; [|exact Ha].
    constructor; assumption.
Qed.

Lemma first_match_at d selectors nearer a further :
  Forall (fun b => matches d b selectors = Return false) nearer ->
  first_match d selectors (nearer ++ a :: further)
  = match matches d a selectors with
    | Throw e => Throw e
    | Return true => Return (Some a)
    | Return false => first_match d selectors further
    end.
Proof.
  induction 1 as [|b nearer Hb _ IH]; simpl; [reflexivity|].
  rewrite Hb. exact IH.
Qed.

Lemma ancestors_of_path_shorter r path a :
  In a (ancestors_of_path r path) -> (length (snd a) < length path)%nat.
Proof.
  induction path as [|i up IH]; simpl; [intros []|].
  intros [<-|Hin]; [simpl; lia|]. specialize (IH Hin). lia.
Qed.

(** X8: whatever the selector engine answers, what [parent] returns is a
    strict ancestor of the target below the document root (so never the
    target itself and never the document), one on which the engine answered
    [true] for the selector, and the engine answered [false] on every
    ancestor nearer to the target. *)
Theorem parent_returns_a_strict_ancestor this query target s a :
  outcome (parent this query target s) = Return (Some a) ->
  a <> target /\ a <> document
  /\ exists nearer further,
       ancestors_below_document target = (nearer ++ a :: further)%list
       /\ Forall (fun b =>
                    matches (dom s) b
                      (parent_selector (name (objs s this)) query)
                    = Return false) nearer
       /\ matches (dom s) a (parent_selector (name (objs s this)) query)
          = Return true.
Proof.
  rewrite parent_scans. unfold outcome. simpl. intros Hfound.
  destruct (first_match_found _ _ _ _ Hfound)
    as (nearer & further & Hsplit & Hn & Ha).
  assert (Hin : In a (ancestors_below_document target))
    by (rewrite Hsplit; apply in_or_app; right; left; reflexivity).
  unfold ancestors_below_document in Hin. apply filter_In in Hin.
  destruct Hin as (Hin & Hdoc).
  split; [|split].
  - intros ->. apply ancestors_of_path_shorter in Hin. lia.
  - intros ->. rewrite bool_decide_eq_true_2 in Hdoc by reflexivity.
    discriminate.
  - exists nearer, further. auto.
Qed.

(** X9: the first match wins.  When the engine answers [false] on the
    ancestors nearer than [a] and [true] on [a], [parent] returns [a],
    whatever the engine would answer or throw on the ancestors above [a]. *)
Theorem parent_first_match_wins this query target s nearer a further :
  ancestors_below_document target = (nearer ++ a :: further)%list ->
  Forall (fun b =>
            matches (dom s) b (parent_selector (name (objs s this)) query)
            = Return false) nearer ->
  matches (dom s) a (parent_selector (name (objs s this)) query)
  = Return true ->
  parent this query target s = (Return (Some a), s, []).
Proof.
  intros Hsplit Hn Ha.
  rewrite parent_scans, Hsplit, (first_match_at _ _ _ _ _ Hn), Ha.
  reflexivity.
Qed.

(** X10: an exception of the selector engine leaves [parent].  When the
    engine answers [false] on the ancestors nearer than [a] and throws [e]
    on [a] (a selector it cannot parse), [parent] throws [e], and leaves the
    state as it was. *)
Theorem parent_throws_what_the_engine_throws
    this query target s nearer a further e :
  ancestors_below_document target = (nearer ++ a :: further)%list ->
  Forall (fun b =>
            matches (dom s) b (parent_selector (name (objs s this)) query)
            = Return false) nearer ->
  matches (dom s) a (parent_selector (name (objs s this)) query) = Throw e ->
  parent this query target s = (Throw e, s, []).
Proof.
  intros Hsplit Hn Ha.
  rewrite parent_scans, Hsplit, (first_match_at _ _ _ _ _ Hn), Ha.
  reflexivity.
Qed.

(** X11: a target with no parent, or whose parent is the document, has no
    ancestor to test: [parent] returns [undefined] without asking the
    selector engine, whatever the query. *)
Theorem parent_of_a_top_element this query target s :
  parentNode target = None \/ parentNode target = Some document ->
  parent this query target s = (Return None, s, []).
Proof.
  intros H. rewrite parent_scans.
  assert (Hnil : ancestors_below_document target = []).
  { destruct target as [r [|i up]]; [reflexivity|].
    destruct H as [H|H]; [discriminate|].
    unfold parentNode in H. simpl in H. injection H as -> ->.
    reflexivity. }
  rewrite Hnil. reflexivity.
Qed.

(** *** [getData] and [setData] *)

Lemma ascii_lowercase_data a :
  ascii_lowercase ("data-" +:+ a) = "data-" +:+ ascii_lowercase a.
Proof. reflexivity. Qed.

Lemma data_name_inj a b : "data-" +:+ a = "data-" +:+ b -> a = b.
Proof. simpl. intros [= H]. exact H. Qed.

Lemma first_attribute_set_other attrs k k' v :
  k' <> k ->
  first_attribute (set_first_attribute attrs k v) k' = first_attribute attrs k'.
Proof.
  intros Hne. induction attrs as [|[k0 v0] rest IH]; simpl.
  - destruct (String.eqb_spec k k'); [congruence | reflexivity].
  - destruct (String.eqb_spec k0 k) as [->|Hk0]; simpl.
    + destruct (String.eqb_spec k k'); [congruence | reflexivity].
    + destruct (k0 =? k'); [reflexivity | exact IH].
Qed.

Lemma set_first_attribute_twice attrs k v1 v2 :
  set_first_attribute (set_first_attribute attrs k v1) k v2
  = set_first_attribute attrs k v2.
Proof.
  induction attrs as [|[k0 v0] rest IH]; simpl.
  - rewrite String.eqb_refl. reflexivity.
  - destruct (k0 =? k) eqn:E; simpl; rewrite E; [reflexivity|].
    rewrite IH. reflexivity.
Qed.

(** X12: without a target, [setData] and [getData] work on the element of
    the instance: [setData(name, v)] is [setData(name, v, element)], and,
    with a key made of ASCII name characters, [getData(name)] after it
    returns [v].  An instance without an element has nothing to write to or
    read from: [setData] does nothing and [getData] returns [null]. *)
Theorem data_without_target this qualifiedName value s :
  (forall el,
     element (objs s this) = Some el ->
     setData this qualifiedName value None s
     = setData this qualifiedName value (Some el) s
     /\ (plain_data_key qualifiedName = true ->
         outcome (getData this qualifiedName None
                    (final (setData this qualifiedName value None s)))
         = Return (Some value)))
  /\ (element (objs s this) = None ->
      setData this qualifiedName value None s = (Return tt, s, [])
      /\ getData this qualifiedName None s = (Return None, s, [])).
Proof.
  split.
  - intros el Hel.
    assert (Hsame : setData this qualifiedName value None s
                    = setData this qualifiedName value (Some el) s)
      by (unfold setData; rewrite Hel; reflexivity).
    split; [exact Hsame|]. rewrite Hsame. intros Hkey.
    apply plain_data_key_valid in Hkey.
    rewrite (setData_valid _ _ _ _ _ Hkey).
    unfold getData, getAttribute, final, outcome, dom_update. simpl.
    rewrite Hel.
    destruct (decide (el = el)) as [_|Hne]; [|contradiction].
    rewrite first_attribute_set. reflexivity.
  - intros Hel. unfold setData, getData. rewrite Hel. split; reflexivity.
Qed.

(** X13: [setData] writes one attribute of one element and nothing else.
    The instances, the arrays and the state of the foreign code are as they
    were, it invokes nothing, and [getData] on any other element, or of a
    key that differs from the one written by more than the case of its
    letters, returns what it returned before. *)
Theorem setData_writes_one_attribute
    this qualifiedName value el s :
  objs (final (setData this qualifiedName value (Some el) s)) = objs s
  /\ arrays (final (setData this qualifiedName value (Some el) s)) = arrays s
  /\ world (final (setData this qualifiedName value (Some el) s)) = world s
  /\ trace (setData this qualifiedName value (Some el) s) = []
  /\ forall that otherName otherEl,
       ascii_lowercase otherName <> ascii_lowercase qualifiedName
       \/ otherEl <> el ->
       outcome (getData that otherName (Some otherEl)
                  (final (setData this qualifiedName value (Some el) s)))
       = outcome (getData that otherName (Some otherEl) s).
Proof.
  destruct (valid_attribute_name ("data-" +:+ qualifiedName)) eqn:Hvalid.
  - rewrite (setData_valid _ _ _ _ _ Hvalid). repeat split.
    intros that otherName otherEl Hother.
    unfold getData, getAttribute, final, outcome, dom_update. simpl.
    destruct (decide (otherEl = el)) as [->|Hne]; [|reflexivity].
    destruct Hother as [Hname|Hel]; [|contradiction].
    rewrite first_attribute_set_other; [reflexivity|].
    change (ascii_lowercase ("data-" +:+ otherName)
            <> ascii_lowercase ("data-" +:+ qualifiedName)).
    rewrite !ascii_lowercase_data. intros H.
    apply data_name_inj in H. contradiction.
  - rewrite (setData_invalid _ _ _ _ _ Hvalid). repeat split.
Qed.

(** X14: the last write wins.  After two [setData] under the same key on
    the same element, every element has the attributes it has after the
    second one alone; in particular writing the same value twice is writing
    it once. *)
Theorem setData_last_write_wins this qualifiedName v1 v2 el s n :
  dom (final (setData this qualifiedName v2 (Some el)
                (final (setData this qualifiedName v1 (Some el) s)))) n
  = dom (final (setData this qualifiedName v2 (Some el) s)) n.
Proof.
  destruct (valid_attribute_name ("data-" +:+ qualifiedName)) eqn:Hvalid.
  - rewrite !(setData_valid _ _ _ _ _ Hvalid).
    unfold final, dom_update. simpl.
    destruct (decide (n = el)) as [->|Hne]; [|reflexivity].
    destruct (decide (el = el)) as [_|Hne]; [|contradiction].
    apply set_first_attribute_twice.
  - rewrite !(setData_invalid _ _ _ _ _ Hvalid). reflexivity.
Qed.

(** *** What sequences of operations leave alone *)

Section Frames.

(** A relation between the state before and the state after that holds
    across every invocation of a method. *)
Variable R : state -> state -> Prop.
Hypothesis R_refl : forall s, R s s.
Hypothesis R_trans : forall s1 s2 s3, R s1 s2 -> R s2 s3 -> R s1 s3.
Hypothesis R_methods :
  forall f thisArg args s, R s (snd (applyFunction f thisArg args s)).

Lemma preserves_ret {A} (a : A) : preserves R (ret a).
Proof. intros s. apply R_refl. Qed.

Lemma preserves_throw {A} e : preserves R (@throw A e).
Proof. intros s. apply R_refl. Qed.

Lemma preserves_read {A} (f : state -> A) : preserves R (read f).
Proof. intros s. apply R_refl. Qed.

Lemma preserves_bindM {A B} (m : M A) (k : A -> M B) :
  preserves R m -> (forall a, preserves R (k a)) -> preserves R (bindM m k).
Proof.
  intros Hm Hk s. unfold bindM. specialize (Hm s).
  destruct (m s) as [[[a|e] s1] t1]; unfold final in *; simpl in *;
    [|exact Hm].
  specialize (Hk a s1). destruct (k a s1) as [[c s2] t2].
  unfold final in Hk. simpl in *. apply (R_trans _ _ _ Hm Hk).
Qed.

Lemma preserves_forEach {A} (callback : A -> M unit) l :
  (forall x, preserves R (callback x)) -> preserves R (forEach callback l).
Proof.
  intros Hc. induction l as [|x rest IH]; simpl.
  - apply preserves_ret.
  - apply preserves_bindM; [apply Hc | intros _; exact IH].
Qed.

Lemma preserves_callMethod caller target methodName args :
  preserves R (callMethod caller target methodName args).
Proof.
  unfold callMethod. apply preserves_bindM; [apply preserves_read|].
  intros v. destruct (truthy v && isFunction v); [|apply preserves_ret].
  destruct v; try apply preserves_throw.
  intros s. rewrite invoke_final. apply R_methods.
Qed.

Lemma preserves_call caller moduleName methodName args :
  preserves R (call caller moduleName methodName args).
Proof.
  unfold call. apply preserves_bindM; [apply preserves_read|].
  intros l. destruct (0 <? length l)%nat; [|apply preserves_throw].
  apply preserves_forEach. intros x. apply preserves_callMethod.
Qed.

Lemma preserves_callById caller id methodName args :
  preserves R (callById caller id methodName args).
Proof.
  unfold callById. apply preserves_bindM; [apply preserves_read|].
  intros [target|]; [apply preserves_callMethod | apply preserves_throw].
Qed.

Lemma perform_preserves caller op s :
  (forall qualifiedName value target s0,
     op = OpSetData qualifiedName value target ->
     R s0 (final (setData caller qualifiedName value target s0))) ->
  R s (perform caller op s).
Proof.
  intros Hset. destruct op; simpl.
  - apply R_refl.
  - apply R_refl.
  - apply R_refl.
  - apply preserves_call.
  - apply preserves_callById.
  - rewrite (proj1 (q_reads caller selectors context s)). apply R_refl.
  - apply R_refl.
  - rewrite (proj1 (getData_reads caller qualifiedName target s)).
    apply R_refl.
  - apply (Hset _ _ _ _ eq_refl).
Qed.

Lemma perform_all_preserves caller ops :
  (forall op qualifiedName value target s0,
     In op ops -> op = OpSetData qualifiedName value target ->
     R s0 (final (setData caller qualifiedName value target s0))) ->
  forall s, R s (perform_all caller ops s).
Proof.
  unfold perform_all. induction ops as [|op ops IH]; intros Hset s.
  - apply R_refl.
  - simpl. apply (R_trans _ (perform caller op s)).
    + apply perform_preserves. intros n v t s0 ->.
      apply (Hset _ n v t s0 (or_introl eq_refl) eq_refl).
    + apply IH. intros op' n v t s0 Hin ->.
      apply (Hset _ n v t s0 (or_intror Hin) eq_refl).
Qed.

End Frames.

(** X15: no operation of the class writes to an instance or to an array of
    instances.  When the methods that [call] and [callById] invoke leave
    them alone, then after any sequence of operations every instance, with
    all its members, and every array, with its entries in their order, are
    as they were. *)
Theorem operations_keep_instances_and_arrays this ops s :
  methods_keep_instances -> methods_keep_arrays ->
  (forall l, objs (perform_all this ops s) l = objs s l)
  /\ (forall a, arrays (perform_all this ops s) a = arrays s a).
Proof.
  intros Hobjs Harrays.
  apply (perform_all_preserves
           (fun s1 s2 => (forall l, objs s2 l = objs s1 l)
                         /\ (forall a, arrays s2 a = arrays s1 a))).
  - intros s0. split; reflexivity.
  - intros s1 s2 s3 (H1 & H2) (H3 & H4). split; intros x.
    + rewrite H3. apply H1.
    + rewrite H4. apply H2.
  - intros f thisArg args s0. split; intros x; [apply Hobjs | apply Harrays].
  - intros op n v t s0 _ _. unfold setData.
    destruct (match t with
              | Some t0 => Some t0
              | None => element (objs s0 this)
              end); [|split; reflexivity].
    destruct (setAttribute _ _ _); split; reflexivity.
Qed.

(** X16: [setData] is the only operation that writes to the DOM.  When the
    methods that [call] and [callById] invoke leave the attributes alone,
    then after any sequence of operations with no [setData] in it every
    element has the attributes it had. *)
Theorem only_setData_writes_attributes this ops s :
  methods_keep_dom ->
  Forall (fun op => is_setData op = false) ops ->
  forall n, dom (perform_all this ops s) n = dom s n.
Proof.
  intros Hdom Hops.
  apply (perform_all_preserves (fun s1 s2 => forall n, dom s2 n = dom s1 n)).
  - intros s0 n. reflexivity.
  - intros s1 s2 s3 H1 H2 n. rewrite H2. apply H1.
  - intros f thisArg args s0 n. apply Hdom.
  - intros op q v t s0 Hin ->.
    rewrite List.Forall_forall in Hops. apply Hops in Hin. discriminate.
Qed.


(** *** [call], entry after entry *)






End ModuleClass.

(** ** [parent] with the selector engine of the standard *)

Lemma span_app f a rest :
  string_forall f a = true ->
  (forall c r, rest = String c r -> f c = false) ->
  span f (a +:+ rest) = (a, rest).
Proof.
  intros Ha Hrest. induction a as [|c a IH].
  - destruct rest as [|c r]; simpl; [reflexivity|].
    rewrite (Hrest c r eq_refl). reflexivity.
  - simpl in Ha. apply andb_prop in Ha. destruct Ha as (Hc & Ha).
    simpl. rewrite Hc, (IH Ha). reflexivity.
Qed.

Lemma classify_parent_selector key query :
  plain_key key = true -> plain_query query = true ->
  classify (parent_selector key query)
  = AttributeEquals ("data-" +:+ key) query.
Proof.
  intros Hkey Hquery.
  change (parent_selector key query)
    with (String "[" (String "d"
            (("ata-" +:+ key)
             +:+ String "=" (String "034" (query +:+ String "034" "]"))))).
  unfold classify.
  change (Ascii.eqb "[" "[" && char_letter "d") with true. cbv iota.
  change (String "d" (("ata-" +:+ key)
            +:+ String "=" (String "034" (query +:+ String "034" "]"))))
    with (("data-" +:+ key)
          +:+ String "=" (String "034" (query +:+ String "034" "]"))).
  rewrite span_app; [|exact Hkey|intros c r [= <- _]; reflexivity].
  cbn [fst snd]. unfold classify_after_name.
  change (Ascii.eqb "=" "=" && Ascii.eqb "034" "034") with true. cbv iota.
  rewrite span_app; [|exact Hquery|intros c r [= <- _]; reflexivity].
  reflexivity.
Qed.

Lemma element_matches_tests_attribute other d key query a :
  plain_key key = true -> plain_query query = true ->
  is_element a = true ->
  matches_attribute (element_matches other) d key query a.
Proof.
  intros Hkey Hquery Ha. unfold matches_attribute, element_matches, carries.
  rewrite Ha, (classify_parent_selector _ _ Hkey Hquery).
  eexists. split; [reflexivity|]. apply bool_decide_eq_true.
Qed.

(** C6, as amended: [parent] tests the strict ancestors of [target] from its
    parent upwards and stops before the document root.  When the name of
    the instance is made of the characters of an identifier, the query has
    no quote, no backslash, no line end and no null character, and the
    strict ancestors of [target] below the document root are elements,
    [parent] returns the nearest of them that carries the attribute
    [data-<name>] with the value [query], and [undefined] when none
    does. *)
Theorem parent_nearest_ancestor_of_plain_query
    {W : Type} other this query target (s : @state W) :
  plain_key (name (objs s this)) = true ->
  plain_query query = true ->
  Forall (fun a => is_element a = true) (ancestors_below_document target) ->
  exists result,
    parent (element_matches other) this query target s
    = (Return result, s, [])
    /\ match result with
       | Some a =>
           exists nearer further,
             ancestors_below_document target
             = (nearer ++ a :: further)%list
             /\ carries (dom s) (name (objs s this)) query a
             /\ Forall (fun b => ~ carries (dom s) (name (objs s this)) query b)
                       nearer
       | None =>
           Forall (fun b => ~ carries (dom s) (name (objs s this)) query b)
                  (ancestors_below_document target)
       end.
Proof.
  intros Hkey Hquery Helements.
  apply parent_nearest_when_engine_tests_attribute.
  revert Helements. apply List.Forall_impl. intros a Ha.
  apply element_matches_tests_attribute; assumption.
Qed.

(** ** A page with two accordions *)

Module Page.

(** What the methods of the page have received, in order: the function,
    [this] and the arguments. *)
Definition received : Type := list (fn * loc * list value).

(** Every method of the page records what it receives; the functions of
    [throwing] throw then, the others return. *)
Definition recording (throwing : list fn) (f : fn) (thisArg : loc)
    (args : list value) (s : @state received)
  : completion value * @state received :=
  let s' := {| objs := objs s; arrays := arrays s; dom := dom s;
               world := (world s ++ [(f, thisArg, args)])%list |} in
  if existsb (Nat.eqb f) throwing then (Throw (Thrown (VString "failed")), s')
  else (Return VUndefined, s').

(** A selector engine for the two selectors of the page: [[name]] and
    [[name="value"]]. *)
Definition parse_selector (selectors : string)
  : option (string * option string) :=
  let n := String.length selectors in
  if String.prefix "[" selectors
     && (String.substring (n - 1) 1 selectors =? "]") then
    let body := String.substring 1 (n - 2) selectors in
    match String.index 0 "=" body with
    | None => Some (body, None)
    | Some i =>
        let quoted := String.substring (i + 1) (String.length body - i - 1) body in
        let m := String.length quoted in
        if (2 <=? m)%nat
           && (String.substring 0 1 quoted =? dquote)
           && (String.substring (m - 1) 1 quoted =? dquote) then
          Some (String.substring 0 i body,
                Some (String.substring 1 (m - 2) quoted))
        else None
    end
  else None.

Definition matches (d : Dom) (n : node) (selectors : string)
  : completion bool :=
  match parse_selector selectors with
  | None => Throw (Thrown (VString "SyntaxError"))
  | Some (key, None) =>
      Return (match getAttribute (d n) key with Some _ => true | None => false end)
  | Some (key, Some v) =>
      Return (match getAttribute (d n) key with
              | Some x => x =? v
              | None => false
              end)
  end.

(** [data-<name>], or [data-<name>="<selectors>"] when selectors are given. *)
Definition generateCustomQuery (name : string) (selectors : option string)
  : string :=
  match selectors with
  | None => "[data-" +:+ name +:+ "]"
  | Some sel => "[data-" +:+ name +:+ "=" +:+ dquote +:+ sel +:+ dquote +:+ "]"
  end.

(** The elements of the page, in document order. *)
Definition body : node := (TheDocument, [0]).
Definition accordion1 : node := (TheDocument, [0; 0]).
Definition item : node := (TheDocument, [0; 0; 0]).
Definition header : node := (TheDocument, [0; 0; 0; 0]).
Definition button : node := (TheDocument, [0; 0; 0; 0; 0]).
Definition accordion2 : node := (TheDocument, [1; 0]).
Definition lone : node := (Detached 0, [0]).

Definition elements : list node :=
  [body; accordion1; item; header; button; accordion2].

Definition attributes : Dom :=
  fun n =>
    if decide (n = item) then [("data-accordion", "item"); ("data-active", "true")]
    else if decide (n = header) then [("data-accordion", "header")]
    else if decide (n = button) then [("data-accordion", "toggle")]
    else [].

(** [b] is a descendant of [a]. *)
Definition below (a b : node) : bool :=
  bool_decide (fst a = fst b)
  && existsb (fun k => bool_decide (skipn k (snd b) = snd a))
             (seq 1 (length (snd b))).

Definition querySelectorAll (d : Dom) (r : node) (selectors : string)
  : completion (list node) :=
  match parse_selector selectors with
  | None => Throw (Thrown (VString "SyntaxError"))
  | Some _ =>
      Return (List.filter
                (fun n => below r n
                          && match matches d n selectors with
                             | Return b => b
                             | Throw _ => false
                             end)
                elements)
  end.

(** The instances: a header, two accordions and a tab bar that has the ID of
    the second accordion. *)
Definition instances (l : loc) : ModuleObject :=
  match l with
  | 0 => {| ID := 1; name := "header"; element := None; modules := 100;
            members := {[ "close" := VFunction 30 ]} |}
  | 1 => {| ID := 2; name := "accordion"; element := Some accordion1;
            modules := 100;
            members := {[ "open" := VFunction 10 ]} |}
  | 2 => {| ID := 3; name := "accordion"; element := Some accordion2;
            modules := 100;
            members := {[ "open" := VFunction 11 ]} |}
  | _ => {| ID := 3; name := "tabs"; element := None; modules := 100;
            members := {[ "open" := VString "no" ]} |}
  end.

Definition page : @state received :=
  {| objs := instances;
     arrays := fun a => match a with 100 => [0; 1; 2; 3] | _ => [] end;
     dom := attributes;
     world := [] |}.

(** *** The methods of the page *)

Lemma recording_returns : methods_return (recording []).
Proof. intros f thisArg args s. exists VUndefined. reflexivity. Qed.

Lemma recording_keeps_instances throwing :
  methods_keep_instances (recording throwing).
Proof.
  intros f thisArg args s l. unfold recording.
  destruct (existsb (Nat.eqb f) throwing); reflexivity.
Qed.

Lemma recording_keeps_fields throwing this :
  methods_keep_fields (recording throwing) this.
Proof.
  intros f thisArg args s. unfold recording.
  destruct (existsb (Nat.eqb f) throwing); reflexivity.
Qed.

(** *** The operations on the page *)

(** [call("accordion", "open", 1, 2)] from the first accordion reaches both
    accordions in order, the caller first; each method receives the caller
    as [this] and the two arguments. *)
Example call_accordion_open :
  let r := call (recording []) 1 "accordion" "open" [VNumber 1; VNumber 2]
                page in
  outcome r = Return tt
  /\ trace r = [invoked 1 1 "open" 10 [VNumber 1; VNumber 2];
                invoked 1 2 "open" 11 [VNumber 1; VNumber 2]]
  /\ world (final r) = [(10, 1, [VNumber 1; VNumber 2]);
                        (11, 1, [VNumber 1; VNumber 2])].
Proof. vm_compute. repeat split. Qed.

(** When the method of the first accordion throws, the second accordion is
    not reached, and the exception leaves [call]. *)
Example call_accordion_open_throwing :
  let r := call (recording [10]) 1 "accordion" "open" [] page in
  outcome r = Throw (Thrown (VString "failed"))
  /\ trace r = [invoked 1 1 "open" 10 []].
Proof. vm_compute. repeat split. Qed.

(** The member [open] of the tab bar is a string: nothing is invoked. *)
Example call_tabs_open :
  call (recording []) 1 "tabs" "open" [] page = (Return tt, page, []).
Proof. reflexivity. Qed.

Example call_missing :
  call (recording []) 1 "missing" "anything" [] page
  = (Throw (ModularModuleNotFoundException "missing"), page, []).
Proof. reflexivity. Qed.

Example callById_42 :
  callById (recording []) 1 42 "anything" [] page
  = (Throw (ModularModuleIdNotFoundException 42), page, []).
Proof. reflexivity. Qed.

(** The second accordion and the tab bar both have the ID 3: the accordion
    comes first in the array. *)
Example callById_3 :
  trace (callById (recording []) 1 3 "open" [] page)
  = [invoked 1 2 "open" 11 []].
Proof. vm_compute. reflexivity. Qed.

Example getData_active :
  outcome (getData 1 "active" (Some item) page) = Return (Some "true")
  /\ outcome (getData 1 "active" (Some button) page) = Return None
  /\ outcome (getData 0 "active" None page) = Return None.
Proof. vm_compute. repeat split. Qed.

Example parent_item :
  outcome (parent matches 1 "item" button page) = Return (Some item)
  /\ outcome (parent matches 1 "header" button page) = Return (Some header)
  /\ outcome (parent matches 1 "toggle" button page) = Return None
  /\ outcome (parent matches 1 "item" lone page) = Return None.
Proof. vm_compute. repeat split. Qed.

Example q_accordion :
  outcome (q querySelectorAll generateCustomQuery 0 None None page)
  = Return QNull
  /\ outcome (q querySelectorAll generateCustomQuery 2 None None page)
     = Return QNull
  /\ outcome (q querySelectorAll generateCustomQuery 1 (Some "item") None page)
     = Return (QElement item)
  /\ outcome (q querySelectorAll generateCustomQuery 1 None None page)
     = Return (QElements [item; header; button])
  /\ outcome (q querySelectorAll generateCustomQuery 2 None (Some item) page)
     = Return (QElements [header; button]).
Proof. vm_compute. repeat split. Qed.

Example lifecycle_hooks :
  init 1 page = (Return tt, page, [])
  /\ bind 1 page = (Return tt, page, [])
  /\ destroy 1 page = (Return tt, page, []).
Proof. repeat split. Qed.

(** *** The properties on the page *)

Lemma call_ModuleNotFound_on_page :
  call (recording []) 1 "missing" "anything" [] page
  = (Throw (ModularModuleNotFoundException "missing"), page, [])
  /\ outcome (call (recording []) 1 "accordion" "open" [VNumber 1] page)
     = Return tt.
Proof.
  split.
  - apply (proj1 (call_ModuleNotFound_iff_no_entry
                    (recording []) 1 "missing" "anything" [] page)).
    repeat constructor; discriminate.
  - apply (proj2 (call_ModuleNotFound_iff_no_entry
                    (recording []) 1 "accordion" "open" [VNumber 1] page)).
    + apply Exists_cons_tl, Exists_cons_hd. reflexivity.
    + exact recording_returns.
Defined.

Lemma callById_on_page :
  trace (callById (recording []) 1 3 "open" [] page)
  = helper_trace page 1 "open" [] 2
  /\ callById (recording []) 1 42 "anything" [] page
     = (Throw (ModularModuleIdNotFoundException 42), page, []).
Proof.
  split.
  - apply (proj1 (callById_first_or_IdNotFound
                    (recording []) 1 3 "open" [] page) [0; 1] 2 [3]).
    + reflexivity.
    + repeat constructor; discriminate.
    + reflexivity.
  - apply (proj2 (callById_first_or_IdNotFound
                    (recording []) 1 42 "anything" [] page)).
    repeat constructor; discriminate.
Defined.

Lemma q_on_page :
  q querySelectorAll generateCustomQuery 0 None None page
  = (Return QNull, page, [])
  /\ q querySelectorAll generateCustomQuery 1 (Some "item") None page
     = (Return (QElement item), page, [])
  /\ q querySelectorAll generateCustomQuery 1 None None page
     = (Return (QElements [item; header; button]), page, []).
Proof.
  split; [|split].
  - apply (proj1 (q_result_by_number_of_matches
                    querySelectorAll generateCustomQuery 0 None None page)).
    reflexivity.
  - apply (proj2 (q_result_by_number_of_matches
                    querySelectorAll generateCustomQuery 1 (Some "item") None
                    page) accordion1 [item]); reflexivity.
  - apply (proj2 (q_result_by_number_of_matches
                    querySelectorAll generateCustomQuery 1 None None page)
             accordion1 [item; header; button]);
      [reflexivity | reflexivity | simpl; lia].
Defined.

Lemma fields_unchanged_on_page :
  let ops :=
    [OpBind; OpInit;
     OpCall "accordion" "open" [VNumber 1];
     OpSetData "active" "false" (Some item);
     OpCallById 42 "anything" [];
     OpQ None None;
     OpParent "item" button;
     OpGetData "active" (Some item);
     OpDestroy] in
  let after :=
    perform_all (recording []) querySelectorAll matches generateCustomQuery
                1 ops page in
  element (objs after 1) = Some accordion1
  /\ ID (objs after 1) = 2%Z
  /\ name (objs after 1) = "accordion"
  /\ modules (objs after 1) = 100.
Proof.
  apply (fields_unchanged_by_operations
           (recording []) querySelectorAll matches generateCustomQuery 1
           (ModuleOptions.mk 2 "accordion" (Some accordion1) 100)
           {[ "open" := VFunction 10 ]}).
  - reflexivity.
  - exact (recording_keeps_fields [] 1).
Defined.

(** *** The further properties on the page *)

(** A selector engine that parses nothing. *)
Definition broken_matches (d : Dom) (n : node) (selectors : string)
  : completion bool :=
  Throw (Thrown (VString "SyntaxError")).

Lemma recording_keeps_arrays throwing :
  methods_keep_arrays (recording throwing).
Proof.
  intros f thisArg args s a. unfold recording.
  destruct (existsb (Nat.eqb f) throwing); reflexivity.
Qed.

Lemma recording_keeps_dom throwing : methods_keep_dom (recording throwing).
Proof.
  intros f thisArg args s n. unfold recording.
  destruct (existsb (Nat.eqb f) throwing); reflexivity.
Qed.

Lemma call_stops_on_page :
  outcome (call (recording [10]) 1 "accordion" "open" [VNumber 1] page)
  = Throw (Thrown (VString "failed"))
  /\ trace (call (recording [10]) 1 "accordion" "open" [VNumber 1] page)
     = flat_map (helper_trace page 1 "open" [VNumber 1]) ([] ++ [1]).
Proof.
  apply (call_stops_at_the_first_throw
           (recording [10]) 1 "accordion" "open" [VNumber 1] page
           [] 1 [2] 10 (Thrown (VString "failed"))).
  - reflexivity.
  - exact (recording_keeps_instances [10]).
  - constructor.
  - reflexivity.
  - intros s0. reflexivity.
Defined.

Lemma call_without_callable_member_on_page :
  call (recording []) 1 "tabs" "open" [] page = (Return tt, page, []).
Proof.
  apply (call_without_callable_member (recording []) 1 "tabs" "open" []
           page).
  - do 3 apply Exists_cons_tl. apply Exists_cons_hd. reflexivity.
  - repeat constructor. intros f. discriminate.
Defined.

Lemma call_header_is_callById_on_page :
  call (recording []) 1 "header" "close" [VNumber 1] page
  = callById (recording []) 1 1 "close" [VNumber 1] page.
Proof.
  apply (call_of_a_unique_name_is_callById
           (recording []) 1 "header" 1 "close" [VNumber 1] page 0).
  - reflexivity.
  - reflexivity.
  - intros l' [<-|[<-|[<-|[<-|[]]]]]; [reflexivity | | | ]; discriminate.
Defined.

Lemma parent_returns_a_strict_ancestor_on_page :
  item <> button /\ item <> document
  /\ exists nearer further,
       ancestors_below_document button = (nearer ++ item :: further)%list
       /\ Forall (fun b =>
                    matches attributes b (parent_selector "accordion" "item")
                    = Return false) nearer
       /\ matches attributes item (parent_selector "accordion" "item")
          = Return true.
Proof.
  apply (parent_returns_a_strict_ancestor matches 1 "item" button page item).
  reflexivity.
Defined.

Lemma parent_first_match_wins_on_page :
  parent matches 1 "item" button page = (Return (Some item), page, []).
Proof.
  apply (parent_first_match_wins matches 1 "item" button page
           [header] item [accordion1; body]).
  - reflexivity.
  - repeat constructor.
  - reflexivity.
Defined.

Lemma parent_throws_on_page :
  parent broken_matches 1 "item" button page
  = (Throw (Thrown (VString "SyntaxError")), page, []).
Proof.
  apply (parent_throws_what_the_engine_throws
           broken_matches 1 "item" button page
           [] header [item; accordion1; body]).
  - reflexivity.
  - constructor.
  - reflexivity.
Defined.

Lemma parent_of_a_top_element_on_page :
  parent matches 1 "item" body page = (Return None, page, [])
  /\ parent matches 1 "item" (Detached 0, []) page = (Return None, page, []).
Proof.
  split.
  - apply (parent_of_a_top_element matches 1 "item" body page).
    right. reflexivity.
  - apply (parent_of_a_top_element matches 1 "item" (Detached 0, []) page).
    left. reflexivity.
Defined.

Lemma operations_keep_instances_on_page :
  let ops :=
    [OpCall "accordion" "open" [VNumber 1];
     OpSetData "active" "false" (Some item);
     OpCallById 3 "open" [];
     OpQ None None] in
  (forall l,
     objs (perform_all (recording []) querySelectorAll matches
                       generateCustomQuery 1 ops page) l
     = objs page l)
  /\ (forall a,
        arrays (perform_all (recording []) querySelectorAll matches
                            generateCustomQuery 1 ops page) a
        = arrays page a).
Proof.
  apply (operations_keep_instances_and_arrays
           (recording []) querySelectorAll matches generateCustomQuery 1).
  - exact (recording_keeps_instances []).
  - exact (recording_keeps_arrays []).
Defined.

Lemma only_setData_writes_attributes_on_page :
  dom (perform_all (recording []) querySelectorAll matches
                   generateCustomQuery 1
                   [OpCall "accordion" "open" [VNumber 1];
                    OpQ (Some "item") None;
                    OpParent "item" button;
                    OpGetData "active" (Some item)] page) item
  = dom page item.
Proof.
  apply (only_setData_writes_attributes
           (recording []) querySelectorAll matches generateCustomQuery 1).
  - exact (recording_keeps_dom []).
  - repeat constructor.
Defined.

(** *** The amended properties on the page *)

(** A query with a quote in it, an element that carries it, and an element
    under a document fragment. *)
Definition quoted : string := "a" +:+ dquote +:+ "b".

Definition attributes_quoted : Dom :=
  fun n =>
    if decide (n = header) then [("data-accordion", quoted)]
    else attributes n.

Definition page_quoted : @state received :=
  {| objs := instances;
     arrays := fun a => match a with 100 => [0; 1; 2; 3] | _ => [] end;
     dom := attributes_quoted;
     world := [] |}.

Definition in_fragment : node := (Fragment 0, [0]).

(** The selectors that are not modelled are not needed on the page. *)
Definition no_other (d : Dom) (n : node) (selectors : string)
  : completion bool :=
  Return false.

(** With the engine of the standard, as with the engine of the page. *)
Example parent_item_standard :
  outcome (parent (element_matches no_other) 1 "item" button page)
  = Return (Some item)
  /\ outcome (parent (element_matches no_other) 1 "toggle" button page)
     = Return None.
Proof. vm_compute. repeat split. Qed.

(** [setData] lower-cases the key: [Active] and [active] are one key. *)
Example setData_Active :
  outcome (getData 1 "active" (Some item)
             (final (@setData received 1 "Active" "x" (Some item) page)))
  = Return (Some "x").
Proof. vm_compute. reflexivity. Qed.





Lemma parent_nearest_ancestor_of_plain_query_on_page :
  exists result,
    parent (element_matches no_other) 1 "item" button page
    = (Return result, page, [])
    /\ match result with
       | Some a =>
           exists nearer further,
             ancestors_below_document button
             = (nearer ++ a :: further)%list
             /\ carries attributes "accordion" "item" a
             /\ Forall (fun b => ~ carries attributes "accordion" "item" b)
                       nearer
       | None =>
           Forall (fun b => ~ carries attributes "accordion" "item" b)
                  (ancestors_below_document button)
       end.
Proof.
  apply (parent_nearest_ancestor_of_plain_query no_other 1 "item" button page).
  - reflexivity.
  - reflexivity.
  - repeat constructor.
Defined.

(** The header carries [data-accordion] with the value [quoted] and is the
    parent of the button, yet [parent] with that query throws: the selector
    it builds is malformed.  And under a document fragment [parent] throws
    where no ancestor carries the attribute: the fragment has no method
    [matches]. *)
Lemma parent_throws_on_a_quote_and_under_a_fragment :
  In header (ancestors_below_document button)
  /\ carries (dom page_quoted) (name (objs page_quoted 1)) quoted header
  /\ parent (element_matches no_other) 1 quoted button page_quoted
     = (Throw (DOMException "SyntaxError"), page_quoted, [])
  /\ ancestors_below_document in_fragment = [(Fragment 0, [])]
  /\ parent (element_matches no_other) 1 "item" in_fragment page
     = (Throw TypeError, page, []).
Proof. vm_compute. repeat split. left. reflexivity. Qed.

Lemma setData_then_getData_on_page :
  outcome (@setData received 1 "active" "false" (Some item) page) = Return tt
  /\ getData 1 "active" (Some item)
             (final (@setData received 1 "active" "false" (Some item) page))
     = (Return (Some "false"),
        final (@setData received 1 "active" "false" (Some item) page), []).
Proof.
  apply (@setData_then_getData_valid_name received 1 "active" "false" item
           page).
  reflexivity.
Defined.

(** [data-a b] is no name of an attribute: [setData] throws, and [getData]
    after it does not return the value. *)
Lemma setData_throws_on_a_space :
  @setData received 1 "a b" "v" (Some item) page
  = (Throw (DOMException "InvalidCharacterError"), page, [])
  /\ getData 1 "a b" (Some item)
             (final (@setData received 1 "a b" "v" (Some item) page))
     = (Return None,
        final (@setData received 1 "a b" "v" (Some item) page), []).
Proof. split; reflexivity. Qed.

Lemma data_without_target_on_page :
  outcome (getData 1 "active" None
             (final (@setData received 1 "active" "yes" None page)))
  = Return (Some "yes")
  /\ @setData received 0 "active" "yes" None page = (Return tt, page, []).
Proof.
  split.
  - apply (proj2 (proj1 (@data_without_target received 1 "active" "yes" page)
                    accordion1 eq_refl)).
    reflexivity.
  - apply (proj2 (@data_without_target received 0 "active" "yes" page)).
    reflexivity.
Defined.

End Page.
